(** * configutil: layered configuration resolution

    A shallow embedding of [configutil.go] (package [configutil]) and the
    properties of its precedence algorithm, its validation contract and its
    [.env] file lookup.

    The Go code reads three ambient sources: the process environment
    ([os.LookupEnv], [os.Getenv]), the file system ([os.Stat],
    [godotenv.Read]) and the location of its own source file
    ([runtime.Caller]).  They are gathered in a [World] record that every
    function takes explicitly.  [log.Printf] is modelled by a writer monad
    that collects the emitted lines; Go's [(value, error)] results by a sum. *)

From Stdlib Require Import String Ascii List Bool Arith Lia.
From stdpp Require Import base option gmap strings.

Import ListNotations.
Local Open Scope string_scope.
Local Open Scope list_scope.

(** ** Go standard library: [strconv] *)

Module strconv.

(** [strconv.FormatBool] *)
Definition FormatBool (b : bool) : string :=
  if b then "true" else "false".

(** [strconv.ParseBool]: [None] stands for the syntax error. *)
Definition ParseBool (str : string) : option bool :=
  if (String.eqb str "1" || String.eqb str "t" || String.eqb str "T"
      || String.eqb str "true" || String.eqb str "TRUE"
      || String.eqb str "True")%bool then Some true
  else if (String.eqb str "0" || String.eqb str "f" || String.eqb str "F"
      || String.eqb str "false" || String.eqb str "FALSE"
      || String.eqb str "False")%bool then Some false
  else None.

End strconv.

(** ** Go standard library: [path/filepath] on Unix *)

Module filepath.

Definition Separator : ascii := "/"%char.

(** [os.IsPathSeparator] *)
Definition IsPathSeparator (c : ascii) : bool := Ascii.eqb c Separator.

Definition isDot (c : ascii) : bool := Ascii.eqb c "."%char.

(** The test [r+1 == n || os.IsPathSeparator(path[r+1])] of [Clean], on the
    part of the path that follows the current byte. *)
Definition atElemEnd (rest : string) : bool :=
  match rest with
  | EmptyString => true
  | String c _ => IsPathSeparator c
  end.

(** The backtracking of [Clean] on a [..] element:
    [out.w--; for out.w > dotdot && !IsPathSeparator(out.index(out.w)) { out.w-- }].
    The buffer is kept reversed, its last byte first. *)
Fixpoint backtrack (out : list ascii) (dotdot : nat) : list ascii :=
  match out with
  | [] => []
  | c :: out' =>
      if (dotdot <? length out')%nat && negb (IsPathSeparator c)
      then backtrack out' dotdot
      else out'
  end.

(** The main loop of [Clean], reading [path] from index [r] on ([path] is
    here the unread part).  [out] is the write buffer, reversed; [out.w] is
    its length.  [inElem] is set while the inner loop of the default case
    copies a path element. *)
Fixpoint cleanLoop (rooted inElem : bool) (path : string)
         (out : list ascii) (dotdot : nat) : list ascii :=
  match path with
  | EmptyString => out
  | String c rest =>
      if IsPathSeparator c then
        (* empty path element (or the end of a copied element) *)
        cleanLoop rooted false rest out dotdot
      else if inElem then
        cleanLoop rooted true rest (c :: out) dotdot
      else if isDot c && atElemEnd rest then
        (* . element *)
        cleanLoop rooted false rest out dotdot
      else
        let real :=
          (* real path element: add slash if needed, copy element *)
          let out1 :=
            if (rooted && negb (length out =? 1)%nat)
               || (negb rooted && negb (length out =? 0)%nat)
            then Separator :: out else out in
          cleanLoop rooted true rest (c :: out1) dotdot in
        match rest with
        | String c2 rest' =>
            if isDot c && isDot c2 && atElemEnd rest' then
              (* .. element: remove to last separator *)
              if (dotdot <? length out)%nat then
                cleanLoop rooted false rest' (backtrack out dotdot) dotdot
              else if negb rooted then
                let out1 := if (0 <? length out)%nat then Separator :: out else out in
                let out2 := "."%char :: "."%char :: out1 in
                cleanLoop rooted false rest' out2 (length out2)
              else
                cleanLoop rooted false rest' out dotdot
            else real
        | EmptyString => real
        end
  end.

(** [filepath.Clean] (no volume names on Unix, [FromSlash] is the
    identity). *)
Definition Clean (path : string) : string :=
  match path with
  | EmptyString => "."
  | String c rest =>
      let rooted := IsPathSeparator c in
      let out :=
        if rooted then cleanLoop true false rest [Separator] 1
        else cleanLoop false false path [] 0 in
      match out with
      | [] => "."
      | _ => string_of_list_ascii (rev out)
      end
  end.

(** [path[:i+1]] for the index [i] of the last separator of [path] (the
    empty string when there is none): the scan of [Dir]. *)
Fixpoint dirPrefix (path : string) : string :=
  match path with
  | EmptyString => EmptyString
  | String c rest =>
      match dirPrefix rest with
      | EmptyString => if IsPathSeparator c then String c EmptyString else EmptyString
      | r => String c r
      end
  end.

(** [filepath.Dir] *)
Definition Dir (path : string) : string := Clean (dirPrefix path).

(** [strings.Join(elems, sep)] *)
Fixpoint stringsJoin (elems : list string) (sep : string) : string :=
  match elems with
  | [] => ""
  | [e] => e
  | e :: es => e +:+ sep +:+ stringsJoin es sep
  end.

(** [filepath.Join]: the elements from the first non-empty one on, joined
    by the separator and cleaned. *)
Fixpoint Join (elem : list string) : string :=
  match elem with
  | [] => ""
  | e :: es =>
      if String.eqb e "" then Join es
      else Clean (stringsJoin elem (String Separator EmptyString))
  end.

End filepath.

(** The number of separators of a path. *)
Fixpoint countSep (path : string) : nat :=
  match path with
  | EmptyString => 0
  | String c rest =>
      (if filepath.IsPathSeparator c then 1 else 0) + countSep rest
  end.


(** ** Errors, logging and the ambient world *)

(** Go's [error] values, as far as this package builds or inspects them. *)
Inductive error : Type :=
| ErrNotExist (path : string)
    (* the [*PathError] of [os.Open] on a path that does not exist *)
| ErrRead (cause : string)
    (* any other failure of [godotenv.Read]: open, read or parse *)
| Errorf (msg : string)
    (* [fmt.Errorf(msg)] *)
| ErrorfW (msg : string) (err : error).
    (* [fmt.Errorf(msg + ": %w", err)] *)

(** The [Error()] text of an error. *)
Fixpoint errorString (e : error) : string :=
  match e with
  | ErrNotExist path => "open " +:+ path +:+ ": no such file or directory"
  | ErrRead cause => cause
  | Errorf msg => msg
  | ErrorfW msg err => msg +:+ ": " +:+ errorString err
  end.

(** [errors.Unwrap] *)
Definition Unwrap (e : error) : option error :=
  match e with
  | ErrorfW _ err => Some err
  | _ => None
  end.

Inductive result (A : Type) : Type :=
| Ok (a : A)
| Err (e : error).
Arguments Ok {A} a.
Arguments Err {A} e.

(** A computation yields a result together with the lines it handed to
    [log.Printf], oldest first. *)
Definition M (A : Type) : Type := result A * list string.

Definition ret {A} (a : A) : M A := (Ok a, []).

Definition fail {A} (e : error) : M A := (Err e, []).

Definition bind {A B} (m : M A) (f : A -> M B) : M B :=
  match m with
  | (Ok a, l) => let '(r, l') := f a in (r, l ++ l')
  | (Err e, l) => (Err e, l)
  end.

Definition logPrintf (line : string) : M unit := (Ok tt, [line]).

(** [if err != nil { return nil, fmt.Errorf(msg + ": %w", err) }] *)
Definition orWrap {A} (msg : string) (m : M A) : M A :=
  match m with
  | (Err e, l) => (Err (ErrorfW msg e), l)
  | ok => ok
  end.

#[global] Instance M_ret : MRet M := @ret.
#[global] Instance M_bind : MBind M := fun A B f m => bind m f.

(** What the file system answers at a path that it does not report as
    missing. *)
Inductive entry : Type :=
| DotEnv (envs : gmap string string)
    (* a readable file that [godotenv] parses to [envs] *)
| Unreadable (cause : string)
    (* something is there, and [os.Stat] finds it, but it cannot be read as a
       [.env] file: a directory, a file that may not be opened, or one that
       does not parse *)
| NoAccess (cause : string).
    (* the path cannot be looked up at all: a parent is a regular file or
       may not be searched, the name is too long; [os.Stat] and [os.Open]
       both fail, with an error other than "no such file" *)

Record World : Type := mkWorld {
  environ : gmap string string;     (* the process environment *)
  fs : string -> option entry;      (* the file system, [None]: the lookup
                                       fails with "no such file" (ENOENT) *)
  callerFile : string               (* the file reported by [runtime.Caller(0)] *)
}.

(** [os.LookupEnv] *)
Definition os_LookupEnv (w : World) (key : string) : option string :=
  environ w !! key.

(** [os.Getenv] *)
Definition os_Getenv (w : World) (key : string) : string :=
  default "" (environ w !! key).

(** What a system call finds at a path: nothing at the empty path. *)
Definition fileAt (w : World) (name : string) : option entry :=
  if String.eqb name "" then None else fs w name.

(** [_, err := os.Stat(name); err == nil] *)
Definition os_Stat (w : World) (name : string) : bool :=
  match fileAt w name with
  | Some (DotEnv _) | Some (Unreadable _) => true
  | Some (NoAccess _) | None => false
  end.

(** [os.IsNotExist] *)
Definition os_IsNotExist (e : error) : bool :=
  match e with
  | ErrNotExist _ => true
  | _ => false
  end.

(** [godotenv.Read(filename)] *)
Definition godotenv_Read (w : World) (filename : string)
  : gmap string string + error :=
  match fileAt w filename with
  | None => inr (ErrNotExist filename)
  | Some (DotEnv envs) => inl envs
  | Some (Unreadable cause) | Some (NoAccess cause) => inr (ErrRead cause)
  end.

(** ** The package *)

Record Config : Type := mkConfig {
  DatabaseURL : string;
  AuthServiceURL : string;
  Debug : bool;
  Port : string;
  EnvFile : string;
  GoogleClientID : string;
  GoogleClientSecret : string
}.

(** [&Config{}] *)
Definition zeroConfig : Config := mkConfig "" "" false "" "" "" "".

Definition set_DatabaseURL (v : string) (c : Config) : Config :=
  mkConfig v (AuthServiceURL c) (Debug c) (Port c) (EnvFile c)
           (GoogleClientID c) (GoogleClientSecret c).
Definition set_AuthServiceURL (v : string) (c : Config) : Config :=
  mkConfig (DatabaseURL c) v (Debug c) (Port c) (EnvFile c)
           (GoogleClientID c) (GoogleClientSecret c).
Definition set_Debug (v : bool) (c : Config) : Config :=
  mkConfig (DatabaseURL c) (AuthServiceURL c) v (Port c) (EnvFile c)
           (GoogleClientID c) (GoogleClientSecret c).
Definition set_Port (v : string) (c : Config) : Config :=
  mkConfig (DatabaseURL c) (AuthServiceURL c) (Debug c) v (EnvFile c)
           (GoogleClientID c) (GoogleClientSecret c).
Definition set_EnvFile (v : string) (c : Config) : Config :=
  mkConfig (DatabaseURL c) (AuthServiceURL c) (Debug c) (Port c) v
           (GoogleClientID c) (GoogleClientSecret c).
Definition set_GoogleClientID (v : string) (c : Config) : Config :=
  mkConfig (DatabaseURL c) (AuthServiceURL c) (Debug c) (Port c) (EnvFile c)
           v (GoogleClientSecret c).
Definition set_GoogleClientSecret (v : string) (c : Config) : Config :=
  mkConfig (DatabaseURL c) (AuthServiceURL c) (Debug c) (Port c) (EnvFile c)
           (GoogleClientID c) v.

(** [type Option]: a function on a pointer to [Config], given here by the
    update it performs on the configuration it is handed. *)
Definition Option : Type := Config -> Config.

Definition WithDatabaseURL (url : string) : Option :=
  fun c => if negb (String.eqb url "") then set_DatabaseURL url c else c.

Definition WithAuthServiceURL (url : string) : Option :=
  fun c => if negb (String.eqb url "") then set_AuthServiceURL url c else c.

Definition WithDebug (debug : bool) : Option :=
  fun c => set_Debug debug c.

Definition WithPort (port : string) : Option :=
  fun c => if negb (String.eqb port "") then set_Port port c else c.

Definition WithEnvFile (file : string) : Option :=
  fun c => if negb (String.eqb file "") then set_EnvFile file c else c.

Definition WithGoogleClientID (clientID : string) : Option :=
  fun c => if negb (String.eqb clientID "") then set_GoogleClientID clientID c else c.

Definition WithGoogleClientSecret (clientSecret : string) : Option :=
  fun c =>
    if negb (String.eqb clientSecret "") then set_GoogleClientSecret clientSecret c
    else c.

(** [for _, opt := range opts { opt(c) }] *)
Definition applyOpts (opts : list Option) (c : Config) : Config :=
  fold_left (fun c opt => opt c) opts c.

Definition validate (c : Config) : M unit :=
  if String.eqb (DatabaseURL c) "" then fail (Errorf "DATABASE_URL is not set")
  else if String.eqb (AuthServiceURL c) "" then fail (Errorf "AUTH_SERVICE_URL is not set")
  else ret tt.

Definition getEnvWithFallback (w : World) (envs : gmap string string)
           (key fallback : string) : string :=
  let fromProcess :=
    match os_LookupEnv w key with
    | Some value => if negb (String.eqb value "") then value else fallback
    | None => fallback
    end in
  match envs !! key with
  | Some value => if negb (String.eqb value "") then value else fromProcess
  | None => fromProcess
  end.

Definition getBoolEnvWithFallback (w : World) (envs : gmap string string)
           (key : string) (fallback : bool) : M bool :=
  let strValue := getEnvWithFallback w envs key (strconv.FormatBool fallback) in
  match strconv.ParseBool strValue with
  | None =>
      logPrintf ("Warning: invalid boolean value for " +:+ key +:+ ", using fallback") ;;
      ret fallback
  | Some boolValue => ret boolValue
  end.

(** The loop of [findEnvFilePath], run for at most [fuel] iterations;
    [None] when they do not suffice. *)
Fixpoint findEnvFilePathLoop (w : World) (fuel : nat) (dir : string)
  : option string :=
  match fuel with
  | O => None
  | S fuel' =>
      let envFilePath := filepath.Join [dir; ".env"] in
      if os_Stat w envFilePath then Some envFilePath
      else
        (* Move up one directory *)
        let parentDir := filepath.Dir dir in
        if String.eqb parentDir dir then
          (* Reached the root directory *)
          Some ""
        else findEnvFilePathLoop w fuel' parentDir
  end.

(** The iterations granted to the search from [startDir]; by
    [findEnvFilePath_terminates] they always suffice. *)
Definition searchFuel (startDir : string) : nat := countSep startDir + 2.

Definition findEnvFilePath (w : World) (startDir : string) : string :=
  default "" (findEnvFilePathLoop w (searchFuel startDir) startDir).

(** A run of the loop of [findEnvFilePath]: [searches w dir probes r] when
    the loop entered at [dir] calls [os.Stat] [probes] times and leaves with
    [r]. *)
Inductive searches (w : World) : string -> nat -> string -> Prop :=
| searches_found (dir : string) :
    os_Stat w (filepath.Join [dir; ".env"]) = true ->
    searches w dir 1 (filepath.Join [dir; ".env"])
| searches_root (dir : string) :
    os_Stat w (filepath.Join [dir; ".env"]) = false ->
    filepath.Dir dir = dir ->
    searches w dir 1 ""
| searches_up (dir : string) (probes : nat) (r : string) :
    os_Stat w (filepath.Join [dir; ".env"]) = false ->
    filepath.Dir dir <> dir ->
    searches w (filepath.Dir dir) probes r ->
    searches w dir (S probes) r.

(** The [k]-th ancestor of a directory. *)
Definition climb (k : nat) (dir : string) : string :=
  Nat.iter k filepath.Dir dir.

Definition loadEnv (w : World) (envFile : string) : M (gmap string string) :=
  let envFile :=
    if String.eqb envFile "" then
      let envFile := os_Getenv w "ENV_FILE" in
      if String.eqb envFile "" then
        let b := callerFile w in
        let basepath := filepath.Dir b in
        findEnvFilePath w basepath
      else envFile
    else envFile in
  match godotenv_Read w envFile with
  | inr err =>
      if os_IsNotExist err then
        logPrintf ("Warning: .env file not found at " +:+ envFile
                   +:+ ", using only OS environment variables") ;;
        ret ∅
      else fail (ErrorfW "error reading .env file" err)
  | inl envs => ret envs
  end.

Definition NewConfig (w : World) (opts : list Option) : M Config :=
  let c := applyOpts opts zeroConfig in
  envs ← orWrap "failed to load environment" (loadEnv w (EnvFile c)) ;
  let c := set_DatabaseURL (getEnvWithFallback w envs "DATABASE_URL" (DatabaseURL c)) c in
  let c := set_AuthServiceURL
             (getEnvWithFallback w envs "AUTH_SERVICE_URL" (AuthServiceURL c)) c in
  debug ← getBoolEnvWithFallback w envs "DEBUG" (Debug c) ;
  let c := set_Debug debug c in
  let c := set_Port (getEnvWithFallback w envs "PORT" (Port c)) c in
  let c := set_GoogleClientID
             (getEnvWithFallback w envs "GOOGLE_CLIENT_ID" (GoogleClientID c)) c in
  let c := set_GoogleClientSecret
             (getEnvWithFallback w envs "GOOGLE_CLIENT_SECRET" (GoogleClientSecret c)) c in
  validate c ;;
  ret c.

(** ** Vocabulary of the statements *)

(** The path [loadEnv] reads: what its first lines leave in [envFile]. *)
Definition envFilePathFor (w : World) (envFile : string) : string :=
  if String.eqb envFile "" then
    let envFile := os_Getenv w "ENV_FILE" in
    if String.eqb envFile "" then
      findEnvFilePath w (filepath.Dir (callerFile w))
    else envFile
  else envFile.

Definition boolWarning (key : string) : string :=
  "Warning: invalid boolean value for " +:+ key +:+ ", using fallback".

Definition notFoundWarning (envFile : string) : string :=
  "Warning: .env file not found at " +:+ envFile
  +:+ ", using only OS environment variables".

(** What [loadEnv] does once the path is fixed: read the file there. *)
Definition readEnvFile (w : World) (envFile : string) : M (gmap string string) :=
  match godotenv_Read w envFile with
  | inr err =>
      if os_IsNotExist err then
        logPrintf (notFoundWarning envFile) ;; ret ∅
      else fail (ErrorfW "error reading .env file" err)
  | inl envs => ret envs
  end.

(** Separators of a (reversed) write buffer. *)
Fixpoint countSepL (l : list ascii) : nat :=
  match l with
  | [] => 0
  | c :: l' => (if filepath.IsPathSeparator c then 1 else 0) + countSepL l'
  end.

(** Does the path end in a separator? *)
Fixpoint endsSep (path : string) : bool :=
  match path with
  | EmptyString => false
  | String c rest =>
      match rest with
      | EmptyString => filepath.IsPathSeparator c
      | _ => endsSep rest
      end
  end.

(** The buffer [Clean] starts from. *)
Definition baseOut (rooted : bool) : list ascii :=
  if rooted then [filepath.Separator] else [].

(** The fields of [Config], by name. *)
Inductive Field : Type :=
| FDatabaseURL | FAuthServiceURL | FDebug | FPort | FEnvFile
| FGoogleClientID | FGoogleClientSecret.

(** The value of a field: a string, or a boolean for [Debug]. *)
Definition getField (f : Field) (c : Config) : string + bool :=
  match f with
  | FDatabaseURL => inl (DatabaseURL c)
  | FAuthServiceURL => inl (AuthServiceURL c)
  | FDebug => inr (Debug c)
  | FPort => inl (Port c)
  | FEnvFile => inl (EnvFile c)
  | FGoogleClientID => inl (GoogleClientID c)
  | FGoogleClientSecret => inl (GoogleClientSecret c)
  end.

(** The seven option constructors of the package, by name and argument. *)
Inductive Setter : Type :=
| SDatabaseURL (url : string)
| SAuthServiceURL (url : string)
| SDebug (debug : bool)
| SPort (port : string)
| SEnvFile (file : string)
| SGoogleClientID (clientID : string)
| SGoogleClientSecret (clientSecret : string).

Definition toOption (s : Setter) : Option :=
  match s with
  | SDatabaseURL url => WithDatabaseURL url
  | SAuthServiceURL url => WithAuthServiceURL url
  | SDebug debug => WithDebug debug
  | SPort port => WithPort port
  | SEnvFile file => WithEnvFile file
  | SGoogleClientID clientID => WithGoogleClientID clientID
  | SGoogleClientSecret clientSecret => WithGoogleClientSecret clientSecret
  end.

Definition setterField (s : Setter) : Field :=
  match s with
  | SDatabaseURL _ => FDatabaseURL
  | SAuthServiceURL _ => FAuthServiceURL
  | SDebug _ => FDebug
  | SPort _ => FPort
  | SEnvFile _ => FEnvFile
  | SGoogleClientID _ => FGoogleClientID
  | SGoogleClientSecret _ => FGoogleClientSecret
  end.

Definition setterArg (s : Setter) : string + bool :=
  match s with
  | SDatabaseURL a | SAuthServiceURL a | SPort a | SEnvFile a
  | SGoogleClientID a | SGoogleClientSecret a => inl a
  | SDebug b => inr b
  end.

(** A string argument counts when it is not empty, a boolean one always. *)
Definition takesEffect (s : Setter) : bool :=
  match setterArg s with
  | inl a => negb (String.eqb a "")
  | inr _ => true
  end.

(** Lines 92-103 of [NewConfig] in one piece: the fields resolved against the
    file mapping [envs], then validated. *)
Definition resolveFields (w : World) (envs : gmap string string) (c : Config)
  : M Config :=
  debug ← getBoolEnvWithFallback w envs "DEBUG" (Debug c) ;
  let c' :=
    mkConfig (getEnvWithFallback w envs "DATABASE_URL" (DatabaseURL c))
             (getEnvWithFallback w envs "AUTH_SERVICE_URL" (AuthServiceURL c))
             debug
             (getEnvWithFallback w envs "PORT" (Port c))
             (EnvFile c)
             (getEnvWithFallback w envs "GOOGLE_CLIENT_ID" (GoogleClientID c))
             (getEnvWithFallback w envs "GOOGLE_CLIENT_SECRET" (GoogleClientSecret c)) in
  validate c' ;;
  ret c'.

(** The entry of a mapping, when it is there and not empty. *)
Definition nonEmptyEntry (m : gmap string string) (key : string) : option string :=
  match m !! key with
  | Some value => if String.eqb value "" then None else Some value
  | None => None
  end.

(** The precedence among the three sources: file mapping, then process
    environment, then the value the overrides left. *)
Definition byPrecedence (file env : option string) (override : string) : string :=
  match file, env with
  | Some value, _ => value
  | None, Some value => value
  | None, None => override
  end.

(** The two kinds of error [NewConfig] returns: a file that could not be
    loaded, and a required field left empty. *)
Definition ConfigLoadError (cause : error) : error :=
  ErrorfW "failed to load environment" (ErrorfW "error reading .env file" cause).

Definition MissingRequiredFieldError (key : string) : error :=
  Errorf (key +:+ " is not set").

(** The key under which a field is looked up in the file mapping and in
    the process environment; [EnvFile] has none. *)
Definition lookupKey (f : Field) : option string :=
  match f with
  | FDatabaseURL => Some "DATABASE_URL"
  | FAuthServiceURL => Some "AUTH_SERVICE_URL"
  | FDebug => Some "DEBUG"
  | FPort => Some "PORT"
  | FEnvFile => None
  | FGoogleClientID => Some "GOOGLE_CLIENT_ID"
  | FGoogleClientSecret => Some "GOOGLE_CLIENT_SECRET"
  end.

(** Example worlds. *)
Definition noFiles : string -> option entry := fun _ => None.

Definition worldEnvOnly : World :=
  mkWorld (<["DATABASE_URL" := "postgres://a"]> (<["AUTH_SERVICE_URL" := "http://b"]> ∅))
          noFiles "/go/src/configutil/configutil.go".

Definition worldEmpty : World :=
  mkWorld ∅ noFiles "/go/src/configutil/configutil.go".

(** A [.env] two directories above the package, with a key also set in the
    process environment and a [DEBUG] that is no boolean. *)
Definition worldDotEnv : World :=
  mkWorld (<["DATABASE_URL" := "postgres://env"]> (<["AUTH_SERVICE_URL" := "http://b"]> ∅))
          (fun p => if String.eqb p "/go/.env"
                    then Some (DotEnv (<["DATABASE_URL" := "postgres://file"]>
                                       (<["DEBUG" := "notabool"]> ∅)))
                    else None)
          "/go/src/configutil/configutil.go".

Definition worldMalformed : World :=
  mkWorld (<["DATABASE_URL" := "postgres://a"]> (<["AUTH_SERVICE_URL" := "http://b"]> ∅))
          (fun p => if String.eqb p "/etc/app.env"
                    then Some (Unreadable "unexpected character in variable name")
                    else None)
          "/go/src/configutil/configutil.go".

(** The hint names a path under the package's own source file, a regular
    file: nothing exists there, and the lookup fails with "not a directory". *)
Definition worldNotDir : World :=
  mkWorld (<["DATABASE_URL" := "postgres://a"]> (<["AUTH_SERVICE_URL" := "http://b"]> ∅))
          (fun p => if String.eqb p "/go/src/configutil/configutil.go"
                    then Some (Unreadable "unexpected character in variable name")
                    else if String.eqb p "/go/src/configutil/configutil.go/.env"
                    then Some (NoAccess
                                 "open /go/src/configutil/configutil.go/.env: not a directory")
                    else None)
          "/go/src/configutil/configutil.go".


(** The environment variables the package reads. *)
Definition consultedKeys : list string :=
  ["ENV_FILE"; "DATABASE_URL"; "AUTH_SERVICE_URL"; "DEBUG"; "PORT";
   "GOOGLE_CLIENT_ID"; "GOOGLE_CLIENT_SECRET"].

(** Two worlds that give the package the same inputs: the same values of
    the variables it reads, the same files, the same source location. *)
Definition sameInputs (w1 w2 : World) : Prop :=
  (forall key : string, In key consultedKeys -> environ w1 !! key = environ w2 !! key)
  /\ (forall path : string, fs w1 path = fs w2 path)
  /\ callerFile w1 = callerFile w2.

(** Two lists of options that perform the same updates. *)
Definition sameOverrides (opts1 opts2 : list Option) : Prop :=
  Forall2 (fun o1 o2 : Option => forall c : Config, o1 c = o2 c) opts1 opts2.

(** The world of [worldDotEnv] under another environment: variables the
    package does not read differ. *)
Definition worldDotEnv' : World :=
  mkWorld (<["HOME" := "/root"]> (<["PATH" := "/usr/bin"]> (environ worldDotEnv)))
          (fs worldDotEnv) (callerFile worldDotEnv).


(** ** Vocabulary of the further properties *)

(** The keys of the six fields resolved from the file and the environment. *)
Definition fieldKeys : list string :=
  ["DATABASE_URL"; "AUTH_SERVICE_URL"; "DEBUG"; "PORT";
   "GOOGLE_CLIENT_ID"; "GOOGLE_CLIENT_SECRET"].

(** The seven setters called with the values of the fields of [c]. *)
Definition optionsOf (c : Config) : list Option :=
  [WithDatabaseURL (DatabaseURL c); WithAuthServiceURL (AuthServiceURL c);
   WithDebug (Debug c); WithPort (Port c); WithEnvFile (EnvFile c);
   WithGoogleClientID (GoogleClientID c);
   WithGoogleClientSecret (GoogleClientSecret c)].

(** The mapping the [.env] file contributes under a path hint: that of the
    file at the path [loadEnv] resolves, empty when no file is read. *)
Definition fileMapping (w : World) (hint : string) : gmap string string :=
  match fileAt w (envFilePathFor w hint) with
  | Some (DotEnv envs) => envs
  | _ => ∅
  end.

(** What [getBoolEnvWithFallback] returns for [DEBUG], and what it logs. *)
Definition resolvedDebug (w : World) (envs : gmap string string) (fallback : bool)
  : bool :=
  default fallback
    (strconv.ParseBool
       (getEnvWithFallback w envs "DEBUG" (strconv.FormatBool fallback))).

Definition debugLog (w : World) (envs : gmap string string) (fallback : bool)
  : list string :=
  match strconv.ParseBool
          (getEnvWithFallback w envs "DEBUG" (strconv.FormatBool fallback)) with
  | Some _ => []
  | None => [boolWarning "DEBUG"]
  end.

(** The configuration lines 92-97 of [NewConfig] leave, before validation. *)
Definition resolvedConfig (w : World) (envs : gmap string string) (c : Config)
  : Config :=
  mkConfig (getEnvWithFallback w envs "DATABASE_URL" (DatabaseURL c))
           (getEnvWithFallback w envs "AUTH_SERVICE_URL" (AuthServiceURL c))
           (resolvedDebug w envs (Debug c))
           (getEnvWithFallback w envs "PORT" (Port c))
           (EnvFile c)
           (getEnvWithFallback w envs "GOOGLE_CLIENT_ID" (GoogleClientID c))
           (getEnvWithFallback w envs "GOOGLE_CLIENT_SECRET" (GoogleClientSecret c)).

(** A key has a value in one of the three sources. *)
Definition hasValue (w : World) (envs : gmap string string)
           (key override : string) : Prop :=
  nonEmptyEntry envs key <> None
  \/ nonEmptyEntry (environ w) key <> None
  \/ override <> "".

(** Two mappings with the same non-empty entries under the given keys. *)
Definition sameNonEmpty (keys : list string) (m1 m2 : gmap string string) : Prop :=
  forall key : string, In key keys -> nonEmptyEntry m1 key = nonEmptyEntry m2 key.

(** Two states of a path that the package cannot tell apart: the same
    state, or two readable files with the same non-empty entries under the
    keys of the fields. *)
Definition sameEntry (o1 o2 : option entry) : Prop :=
  match o1, o2 with
  | Some (DotEnv m1), Some (DotEnv m2) => sameNonEmpty fieldKeys m1 m2
  | _, _ => o1 = o2
  end.

Definition sameEffectiveInputs (w1 w2 : World) : Prop :=
  sameNonEmpty consultedKeys (environ w1) (environ w2)
  /\ (forall path : string, sameEntry (fs w1 path) (fs w2 path))
  /\ callerFile w1 = callerFile w2.

(** The path the caller names, by the hint or else by [ENV_FILE]; [None]
    when neither is given and [loadEnv] searches. *)
Definition explicitPath (w : World) (hint : string) : option string :=
  if String.eqb hint "" then nonEmptyEntry (environ w) "ENV_FILE" else Some hint.

(** A valid [DEBUG] in the file, against a [WithDebug] override. *)
Definition worldDebugFile : World :=
  mkWorld (<["DATABASE_URL" := "postgres://a"]> (<["AUTH_SERVICE_URL" := "http://b"]> ∅))
          (fun p => if String.eqb p "/go/.env"
                    then Some (DotEnv (<["DEBUG" := "1"]> ∅))
                    else None)
          "/go/src/configutil/configutil.go".

(** An invalid [DEBUG] in the file, a valid one in the environment. *)
Definition worldDebugClash : World :=
  mkWorld (<["DEBUG" := "true"]> (environ worldDotEnv))
          (fs worldDotEnv) (callerFile worldDotEnv).

(** [worldDotEnv] with an unknown key and an empty [PORT] in the file, and
    an empty [GOOGLE_CLIENT_ID] in the environment. *)
Definition worldDotEnvNoise : World :=
  mkWorld (<["GOOGLE_CLIENT_ID" := ""]> (environ worldDotEnv))
          (fun p => if String.eqb p "/go/.env"
                    then Some (DotEnv (<["LOG_LEVEL" := "debug"]>
                                       (<["PORT" := ""]>
                                        (<["DATABASE_URL" := "postgres://file"]>
                                         (<["DEBUG" := "notabool"]> ∅)))))
                    else None)
          "/go/src/configutil/configutil.go".

(** A directory named [.env] beside the package, a readable file above. *)
Definition worldDotEnvDir : World :=
  mkWorld (<["DATABASE_URL" := "postgres://a"]> (<["AUTH_SERVICE_URL" := "http://b"]> ∅))
          (fun p => if String.eqb p "/go/src/configutil/.env"
                    then Some (Unreadable "read /go/src/configutil/.env: is a directory")
                    else if String.eqb p "/go/.env"
                    then Some (DotEnv (<["PORT" := "80"]> ∅))
                    else None)
          "/go/src/configutil/configutil.go".

(** ** Checks of the path functions *)

(** The tables of Go's tests of [Clean] and [Dir]. *)
Example Clean_table :
  map filepath.Clean
    ["abc"; "abc/def"; "a/b/c"; "."; ".."; "../.."; "../../abc"; "/abc"; "/"; "";
     "abc/"; "abc/def/"; "a/b/c/"; "./"; "../"; "../../"; "/abc/";
     "abc//def//ghi"; "//abc"; "///abc"; "//abc//"; "abc//";
     "abc/./def"; "/./abc/def"; "abc/.";
     "abc/def/ghi/../jkl"; "abc/def/../ghi/../jkl"; "abc/def/.."; "abc/def/../..";
     "/abc/def/../.."; "/abc/def/../../.."; "abc/def/../../..";
     "abc/def/../../../ghi/jkl/../../../mno"; "/../abc";
     "abc/./../def"; "abc//./../def"; "abc/../../././../def"]
  = ["abc"; "abc/def"; "a/b/c"; "."; ".."; "../.."; "../../abc"; "/abc"; "/"; ".";
     "abc"; "abc/def"; "a/b/c"; "."; ".."; "../.."; "/abc";
     "abc/def/ghi"; "/abc"; "/abc"; "/abc"; "abc";
     "abc/def"; "/abc/def"; "abc";
     "abc/def/jkl"; "abc/jkl"; "abc"; ".";
     "/"; "/"; "..";
     "../../mno"; "/abc";
     "def"; "def"; "../../def"].
Proof. reflexivity. Qed.

Example Dir_table :
  map filepath.Dir
    [""; "."; "/."; "/"; "////"; "/foo"; "x/"; "abc"; "abc/def";
     "a/b/.x"; "a/b/c."; "a/b/c.x"]
  = ["."; "."; "/"; "/"; "/"; "/"; "x"; "."; "abc"; "a/b"; "a/b"; "a/b"].
Proof. reflexivity. Qed.

Example Join_table :
  map filepath.Join
    [[]; [""]; ["/"]; ["a"]; ["a"; "b"]; ["a"; ""]; [""; "b"]; ["/"; "a"];
     ["/"; "a/b"]; ["/"; ""]; ["/a"; "b"]; ["a"; "/b"]; ["/a"; "/b"];
     ["a/"; "b"]; ["a/"; ""]; [""; ""]; ["/go/src"; ".env"]; ["."; ".env"]]
  = [""; ""; "/"; "a"; "a/b"; "a"; "b"; "/a";
     "/a/b"; "/"; "/a/b"; "a/b"; "/a/b";
     "a/b"; "a"; ""; "/go/src/.env"; ".env"].
Proof. reflexivity. Qed.

Example ParseBool_table :
  map strconv.ParseBool
    ["1"; "t"; "T"; "TRUE"; "true"; "True"; "0"; "f"; "F"; "FALSE"; "false"; "False";
     ""; "asdf"; "notabool"; "yes"; "tRuE"]
  = [Some true; Some true; Some true; Some true; Some true; Some true;
     Some false; Some false; Some false; Some false; Some false; Some false;
     None; None; None; None; None].
Proof. reflexivity. Qed.

(** The search from the package directory of [worldDotEnv]: three probes. *)
Example findEnvFilePath_ex :
  findEnvFilePathLoop worldDotEnv 2 "/go/src/configutil" = None
  /\ findEnvFilePathLoop worldDotEnv 3 "/go/src/configutil" = Some "/go/.env"
  /\ findEnvFilePath worldEmpty "/go/src/configutil" = "".
Proof. repeat split; reflexivity. Qed.

(** ** Facts on [filepath.Clean] and [filepath.Dir] *)

Section CleanFacts.
Import filepath.

Lemma countSepL_app (l1 l2 : list ascii) :
  countSepL (l1 ++ l2) = countSepL l1 + countSepL l2.
Proof. induction l1 as [|c l1 IH]; simpl; [reflexivity | rewrite IH; lia]. Qed.

Lemma countSepL_rev (l : list ascii) : countSepL (rev l) = countSepL l.
Proof.
  induction l as [|c l IH]; simpl; [reflexivity|].
  rewrite countSepL_app, IH. simpl. lia.
Qed.

Lemma countSep_of_list (l : list ascii) :
  countSep (string_of_list_ascii l) = countSepL l.
Proof. induction l as [|c l IH]; simpl; [reflexivity | now rewrite IH]. Qed.

Lemma isDot_not_sep (c : ascii) : isDot c = true -> IsPathSeparator c = false.
Proof.
  unfold isDot, IsPathSeparator. intros H.
  apply Ascii.eqb_eq in H. subst c. reflexivity.
Qed.

Lemma backtrack_countSepL (out : list ascii) (dotdot : nat) :
  countSepL (backtrack out dotdot) <= countSepL out.
Proof.
  induction out as [|c out IH]; simpl; [lia|].
  destruct ((dotdot <? length out)%nat && negb (IsPathSeparator c)); lia.
Qed.

Lemma baseOut_length (rooted : bool) (out : list ascii) :
  (rooted && negb (length out =? 1)%nat)
  || (negb rooted && negb (length out =? 0)%nat) = true ->
  out <> baseOut rooted.
Proof.
  intros H ->. destruct rooted; discriminate H.
Qed.

(** The invariant of the loop of [Clean]: the buffer never holds more
    separators than were read, and holds fewer whenever an element is about
    to start on a buffer that is not the initial one. *)
Lemma cleanLoop_countSep (n : nat) :
  forall (path : string) (rooted inElem : bool) (out : list ascii) (dotdot K : nat),
    String.length path <= n ->
    countSepL out <= K ->
    (inElem = false -> atElemEnd path = false ->
     out = baseOut rooted \/ countSepL out < K) ->
    countSepL (cleanLoop rooted inElem path out dotdot) <= K + countSep path
    /\ (endsSep path = true ->
        countSepL (cleanLoop rooted inElem path out dotdot) < K + countSep path).
Proof.
  induction n as [|n IH]; intros path rooted inElem out dotdot K Hlen Hout Hcredit.
  { destruct path; simpl in Hlen; [|lia]. simpl. split; [lia | discriminate]. }
  destruct path as [|c rest]; [simpl; split; [lia | discriminate]|].
  simpl in Hlen.
  assert (Hends : forall P : Prop,
             (rest = EmptyString -> IsPathSeparator c = true -> P) ->
             (endsSep rest = true -> P) ->
             endsSep (String c rest) = true -> P).
  { intros P H1 H2 H. simpl in H. destruct rest; [apply H1 | apply H2]; auto. }
  cbn [cleanLoop countSep].
  destruct (IsPathSeparator c) eqn:Hc.
  - (* a separator is read *)
    destruct (IH rest rooted false out dotdot (S K)) as [IH1 IH2];
      [lia | lia | intros; right; lia |].
    split; [lia|]. apply Hends; [|intros H; specialize (IH2 H); lia].
    intros -> _. simpl. lia.
  - simpl in Hcredit. rewrite Hc in Hcredit.
    destruct inElem.
    + (* inside a copied element *)
      destruct (IH rest rooted true (c :: out) dotdot K) as [IH1 IH2];
        [lia | simpl; rewrite Hc; lia | discriminate |].
      split; [lia|]. apply Hends; [congruence | intros H; specialize (IH2 H); lia].
    + specialize (Hcredit eq_refl eq_refl).
      assert (Hreal :
        let out1 := if (rooted && negb (length out =? 1)%nat)
                       || (negb rooted && negb (length out =? 0)%nat)
                    then Separator :: out else out in
        countSepL (cleanLoop rooted true rest (c :: out1) dotdot) <= K + (0 + countSep rest)
        /\ (endsSep (String c rest) = true ->
            countSepL (cleanLoop rooted true rest (c :: out1) dotdot)
            < K + (0 + countSep rest))).
      { intros out1.
        assert (Hout1 : countSepL (c :: out1) <= K).
        { simpl. rewrite Hc. subst out1.
          destruct ((rooted && negb (length out =? 1)%nat)
                    || (negb rooted && negb (length out =? 0)%nat)) eqn:Hneed;
            [|lia].
          apply baseOut_length in Hneed.
          destruct Hcredit as [? | ?]; [contradiction|]. simpl. lia. }
        destruct (IH rest rooted true (c :: out1) dotdot K) as [IH1 IH2];
          [lia | exact Hout1 | discriminate |].
        split; [lia|].
        apply Hends; [congruence | intros H; specialize (IH2 H); lia]. }
      destruct (isDot c && atElemEnd rest) eqn:Hdot.
      * (* . element *)
        apply andb_true_iff in Hdot as [_ Hend].
        destruct (IH rest rooted false out dotdot K) as [IH1 IH2];
          [lia | lia | intros _ H; congruence |].
        split; [lia|]. apply Hends; [congruence | intros H; specialize (IH2 H); lia].
      * destruct rest as [|c2 rest']; [exact Hreal|].
        destruct (isDot c && isDot c2 && atElemEnd rest') eqn:Hdd; [|exact Hreal].
        (* .. element *)
        apply andb_true_iff in Hdd as [Hdd Hend].
        apply andb_true_iff in Hdd as [_ Hc2].
        apply isDot_not_sep in Hc2.
        simpl in Hlen. cbn [countSep]. rewrite Hc2.
        assert (Hends' : forall P : Prop,
                   (endsSep rest' = true -> P) ->
                   endsSep (String c (String c2 rest')) = true -> P).
        { intros P H1 H. cbn [endsSep] in H.
          destruct rest'; [congruence | apply H1; exact H]. }
        assert (Hstep : forall out' dotdot',
                   countSepL out' <= K ->
                   countSepL (cleanLoop rooted false rest' out' dotdot')
                   <= K + (0 + (0 + countSep rest'))
                   /\ (endsSep (String c (String c2 rest')) = true ->
                       countSepL (cleanLoop rooted false rest' out' dotdot')
                       < K + (0 + (0 + countSep rest')))).
        { intros out' dotdot' Hout'.
          destruct (IH rest' rooted false out' dotdot' K) as [IH1 IH2];
            [lia | exact Hout' | intros _ H; congruence |].
          split; [lia|]. apply Hends'. intros H; specialize (IH2 H); lia. }
        destruct (dotdot <? length out)%nat.
        { apply Hstep. pose proof (backtrack_countSepL out dotdot). lia. }
        destruct (negb rooted) eqn:Hrooted; [|apply Hstep; exact Hout].
        apply Hstep. simpl.
        destruct (0 <? length out)%nat eqn:Hw; [|simpl; lia].
        destruct Hcredit as [-> | ?]; [|simpl; lia].
        destruct rooted; discriminate.
Qed.

(** Cleaning a path that ends in a separator drops a separator, unless
    the path is the root itself. *)
Lemma Clean_trailing_sep (path : string) :
  endsSep path = true ->
  path = "/" \/ countSep (Clean path) < countSep path.
Proof.
  destruct path as [|c rest]; [discriminate|].
  intros Hends. unfold Clean.
  destruct (IsPathSeparator c) eqn:Hc.
  - destruct rest as [|c2 rest'].
    + left. apply Ascii.eqb_eq in Hc. now subst c.
    + right.
      destruct (cleanLoop_countSep (String.length (String c2 rest'))
                  (String c2 rest') true false [Separator] 1 1) as [_ H];
        [lia | simpl; lia | left; reflexivity |].
      specialize (H Hends).
      change (countSep (String c (String c2 rest')))
        with ((if IsPathSeparator c then 1 else 0) + countSep (String c2 rest')).
      rewrite Hc.
      destruct (cleanLoop true false (String c2 rest') [Separator] 1) eqn:Hout;
        [change (countSep ".") with 0; lia|].
      rewrite countSep_of_list, countSepL_rev. lia.
  - right.
    destruct (cleanLoop_countSep (String.length (String c rest))
                (String c rest) false false [] 0 0) as [_ H];
      [lia | simpl; lia | left; reflexivity |].
    specialize (H Hends).
    destruct (cleanLoop false false (String c rest) [] 0) eqn:Hout;
      [change (countSep ".") with 0; change (countSepL []) with 0 in H; lia|].
    rewrite countSep_of_list, countSepL_rev. lia.
Qed.

Lemma dirPrefix_spec (path : string) :
  (dirPrefix path = EmptyString /\ countSep path = 0)
  \/ (endsSep (dirPrefix path) = true
      /\ countSep (dirPrefix path) = countSep path).
Proof.
  induction path as [|c rest IH]; [left; split; reflexivity|].
  cbn [dirPrefix countSep].
  destruct IH as [[-> Hz] | [He Hn]].
  - destruct (IsPathSeparator c) eqn:Hc.
    + right. simpl. rewrite Hc. split; [reflexivity | lia].
    + left. split; [reflexivity | lia].
  - right. destruct (dirPrefix rest) eqn:Hp; [discriminate|].
    cbn [endsSep countSep] in *. split; [exact He | lia].
Qed.

(** One step of the climb: the parent of a path is a fixed point of
    [Dir] ([.] or [/]) or has fewer separators than the path. *)
Lemma Dir_step (path : string) :
  Dir (Dir path) = Dir path \/ countSep (Dir path) < countSep path.
Proof.
  unfold Dir at 2 3 4.
  destruct (dirPrefix_spec path) as [[-> _] | [He Hn]]; [left; reflexivity|].
  destruct (Clean_trailing_sep _ He) as [-> | Hlt]; [left; reflexivity|].
  right. lia.
Qed.

Lemma Clean_nonempty (path : string) : Clean path <> "".
Proof.
  unfold Clean. destruct path as [|c rest]; [discriminate|].
  destruct (if IsPathSeparator c then _ else _) as [|a l] eqn:Hout; [discriminate|].
  simpl. destruct (rev l); simpl; discriminate.
Qed.

End CleanFacts.

(** ** The upward search *)

Section Search.
Variable w : World.

Lemma Dir_fixed (dir : string) :
  filepath.Dir dir = dir -> dir = "/" \/ dir = ".".
Proof.
  intros Hfix. unfold filepath.Dir in Hfix.
  destruct (dirPrefix_spec dir) as [[Hp _] | [He Hn]].
  - rewrite Hp in Hfix. right. now rewrite <- Hfix.
  - destruct (Clean_trailing_sep _ He) as [Hp | Hlt].
    + rewrite Hp in Hfix. left. now rewrite <- Hfix.
    + rewrite Hfix in Hlt. lia.
Qed.

Lemma searches_one (dir : string) :
  filepath.Dir dir = dir -> exists r, searches w dir 1 r.
Proof.
  intros Hfix.
  destruct (os_Stat w (filepath.Join [dir; ".env"])) eqn:Hstat.
  - eexists. now apply searches_found.
  - eexists. now apply searches_root.
Qed.

Lemma searches_total (bound : nat) :
  forall dir : string,
    countSep dir <= bound ->
    exists probes r, searches w dir probes r /\ probes <= bound + 2.
Proof.
  induction bound as [|bound IH]; intros dir Hdir.
  - destruct (os_Stat w (filepath.Join [dir; ".env"])) eqn:Hstat.
    { exists 1. eexists. split; [now apply searches_found | lia]. }
    destruct (String.eqb_spec (filepath.Dir dir) dir) as [Hfix | Hup].
    { exists 1. eexists. split; [now apply searches_root | lia]. }
    destruct (Dir_step dir) as [Hfix | Hlt]; [|lia].
    destruct (searches_one _ Hfix) as [r Hr].
    exists 2, r. split; [now apply searches_up | lia].
  - destruct (os_Stat w (filepath.Join [dir; ".env"])) eqn:Hstat.
    { exists 1. eexists. split; [now apply searches_found | lia]. }
    destruct (String.eqb_spec (filepath.Dir dir) dir) as [Hfix | Hup].
    { exists 1. eexists. split; [now apply searches_root | lia]. }
    destruct (Dir_step dir) as [Hfix | Hlt].
    + destruct (searches_one _ Hfix) as [r Hr].
      exists 2, r. split; [now apply searches_up | lia].
    + destruct (IH (filepath.Dir dir)) as (probes & r & Hr & Hle); [lia|].
      exists (S probes), r. split; [now apply searches_up | lia].
Qed.

Lemma searches_loop (dir : string) (probes : nat) (r : string) :
  searches w dir probes r ->
  forall fuel : nat,
    (probes <= fuel -> findEnvFilePathLoop w fuel dir = Some r)
    /\ (fuel < probes -> findEnvFilePathLoop w fuel dir = None).
Proof.
  induction 1 as [dir Hstat | dir Hstat Hfix | dir probes r Hstat Hup _ IH];
    intros [|fuel]; (split; [intros Hle | intros Hlt]); try lia;
    try reflexivity; cbn [findEnvFilePathLoop]; rewrite Hstat; try reflexivity.
  - rewrite Hfix, String.eqb_refl. reflexivity.
  - apply String.eqb_neq in Hup. rewrite Hup. apply IH. lia.
  - apply String.eqb_neq in Hup. rewrite Hup. apply IH. lia.
Qed.

Lemma searches_pos (dir : string) (probes : nat) (r : string) :
  searches w dir probes r -> 1 <= probes.
Proof. induction 1; lia. Qed.

Lemma climb_Dir (k : nat) (dir : string) :
  climb k (filepath.Dir dir) = climb (S k) dir.
Proof.
  unfold climb. induction k as [|k IH]; [reflexivity|].
  change (filepath.Dir (Nat.iter k filepath.Dir (filepath.Dir dir))
          = filepath.Dir (Nat.iter (S k) filepath.Dir dir)).
  now rewrite IH.
Qed.


Lemma findEnvFilePath_searches (startDir : string) :
  exists probes r,
    searches w startDir probes r
    /\ probes <= countSep startDir + 2
    /\ findEnvFilePath w startDir = r.
Proof.
  destruct (searches_total (countSep startDir) startDir) as (probes & r & Hr & Hle);
    [lia|].
  exists probes, r. split; [exact Hr|]. split; [exact Hle|].
  unfold findEnvFilePath, searchFuel.
  destruct (searches_loop _ _ _ Hr (countSep startDir + 2)) as [Hrun _].
  now rewrite (Hrun Hle).
Qed.

End Search.

Section Setters.

Lemma applyOpts_app (opts1 opts2 : list Option) (c : Config) :
  applyOpts (opts1 ++ opts2) c = applyOpts opts2 (applyOpts opts1 c).
Proof. unfold applyOpts. apply fold_left_app. Qed.

Lemma setter_effect (s : Setter) (c : Config) :
  takesEffect s = true -> getField (setterField s) (toOption s c) = setterArg s.
Proof.
  destruct s; unfold takesEffect; simpl; intros H;
    try (unfold WithDatabaseURL, WithAuthServiceURL, WithPort, WithEnvFile,
           WithGoogleClientID, WithGoogleClientSecret; rewrite H);
    reflexivity.
Qed.

Lemma setter_empty (s : Setter) (c : Config) :
  takesEffect s = false -> toOption s c = c.
Proof.
  destruct s; unfold takesEffect; simpl; intros H; try discriminate;
    unfold WithDatabaseURL, WithAuthServiceURL, WithPort, WithEnvFile,
      WithGoogleClientID, WithGoogleClientSecret; rewrite H; reflexivity.
Qed.

Lemma setter_frame (s : Setter) (f : Field) (c : Config) :
  f <> setterField s -> getField f (toOption s c) = getField f c.
Proof.
  intros Hf. destruct (takesEffect s) eqn:He; [|now rewrite setter_empty].
  destruct s; unfold takesEffect in He; simpl in He, Hf |- *;
    unfold WithDatabaseURL, WithAuthServiceURL, WithPort, WithEnvFile,
      WithGoogleClientID, WithGoogleClientSecret, WithDebug;
    rewrite ?He; destruct f; try reflexivity; contradiction.
Qed.

(** Setters that leave a field alone, one after the other, leave it alone. *)
Lemma applyOpts_frame (f : Field) (ss : list Setter) (c : Config) :
  Forall (fun s => setterField s <> f \/ takesEffect s = false) ss ->
  getField f (applyOpts (map toOption ss) c) = getField f c.
Proof.
  intros H. revert c. induction H as [|s ss Hs _ IH]; intros c; [reflexivity|].
  cbn [map]. change (applyOpts (toOption s :: map toOption ss) c)
    with (applyOpts (map toOption ss) (toOption s c)).
  rewrite IH. destruct Hs as [Hs | Hs]; [|now rewrite setter_empty].
  apply setter_frame. congruence.
Qed.

End Setters.

Section Resolution.
Variable w : World.

Lemma loadEnv_unfold (hint : string) :
  loadEnv w hint = readEnvFile w (envFilePathFor w hint).
Proof. reflexivity. Qed.

Lemma NewConfig_resolveFields (opts : list Option) :
  NewConfig w opts =
  (envs ← orWrap "failed to load environment"
            (loadEnv w (EnvFile (applyOpts opts zeroConfig))) ;
   resolveFields w envs (applyOpts opts zeroConfig)).
Proof. reflexivity. Qed.

Lemma getEnvWithFallback_spec (envs : gmap string string) (key fallback : string) :
  getEnvWithFallback w envs key fallback =
  byPrecedence (nonEmptyEntry envs key) (nonEmptyEntry (environ w) key) fallback.
Proof.
  unfold getEnvWithFallback, byPrecedence, nonEmptyEntry, os_LookupEnv.
  destruct (envs !! key) as [v|]; [destruct (String.eqb v "")|];
    simpl; try reflexivity;
    destruct (environ w !! key) as [v'|]; try reflexivity;
    destruct (String.eqb v' ""); reflexivity.
Qed.

Lemma ParseBool_FormatBool (b : bool) :
  strconv.ParseBool (strconv.FormatBool b) = Some b.
Proof. destruct b; reflexivity. Qed.

Lemma getBoolEnvWithFallback_total (envs : gmap string string) (key : string)
      (fallback : bool) :
  exists (b : bool) (l : list string),
    getBoolEnvWithFallback w envs key fallback = (Ok b, l)
    /\ (l = [] \/ (l = [boolWarning key] /\ b = fallback)).
Proof.
  unfold getBoolEnvWithFallback.
  destruct (strconv.ParseBool _) as [b|].
  - exists b, []. split; [reflexivity | now left].
  - exists fallback, [boolWarning key]. split; [reflexivity | now right].
Qed.

Lemma validate_cases (c : Config) :
  (DatabaseURL c = "" /\ validate c = fail (MissingRequiredFieldError "DATABASE_URL"))
  \/ (DatabaseURL c <> "" /\ AuthServiceURL c = ""
      /\ validate c = fail (MissingRequiredFieldError "AUTH_SERVICE_URL"))
  \/ (DatabaseURL c <> "" /\ AuthServiceURL c <> "" /\ validate c = ret tt).
Proof.
  unfold validate.
  destruct (String.eqb_spec (DatabaseURL c) ""); [left; now split|].
  destruct (String.eqb_spec (AuthServiceURL c) ""); [right; left; now split|].
  right; right; now split.
Qed.

(** What [resolveFields] returns, case by case. *)
Lemma resolveFields_cases (envs : gmap string string) (c : Config) :
  exists (debug : bool) (l : list string),
    getBoolEnvWithFallback w envs "DEBUG" (Debug c) = (Ok debug, l)
    /\ let c' :=
         mkConfig (getEnvWithFallback w envs "DATABASE_URL" (DatabaseURL c))
           (getEnvWithFallback w envs "AUTH_SERVICE_URL" (AuthServiceURL c))
           debug
           (getEnvWithFallback w envs "PORT" (Port c))
           (EnvFile c)
           (getEnvWithFallback w envs "GOOGLE_CLIENT_ID" (GoogleClientID c))
           (getEnvWithFallback w envs "GOOGLE_CLIENT_SECRET" (GoogleClientSecret c)) in
       (DatabaseURL c' = ""
        /\ resolveFields w envs c = (Err (MissingRequiredFieldError "DATABASE_URL"), l))
       \/ (DatabaseURL c' <> "" /\ AuthServiceURL c' = ""
           /\ resolveFields w envs c
              = (Err (MissingRequiredFieldError "AUTH_SERVICE_URL"), l))
       \/ (DatabaseURL c' <> "" /\ AuthServiceURL c' <> ""
           /\ resolveFields w envs c = (Ok c', l)).
Proof.
  destruct (getBoolEnvWithFallback_total envs "DEBUG" (Debug c)) as (b & l & Hb & _).
  exists b, l. split; [exact Hb|].
  unfold resolveFields, mbind, M_bind, bind. rewrite Hb. cbv zeta.
  set (c' := mkConfig _ _ _ _ _ _ _).
  destruct (validate_cases c') as [[H1 Hv] | [(H1 & H2 & Hv) | (H1 & H2 & Hv)]];
    [left | right; left | right; right]; repeat (split; [assumption|]);
    rewrite Hv; cbn; rewrite ?app_nil_r; reflexivity.
Qed.

(** What reading a path returns, by what the file system holds there. *)
Lemma readEnvFile_cases (path : string) :
  match fileAt w path with
  | None => readEnvFile w path = (Ok ∅, [notFoundWarning path])
  | Some (DotEnv envs) => readEnvFile w path = (Ok envs, [])
  | Some (Unreadable cause) | Some (NoAccess cause) =>
      readEnvFile w path = (Err (ErrorfW "error reading .env file" (ErrRead cause)), [])
  end.
Proof.
  unfold readEnvFile, godotenv_Read.
  destruct (fileAt w path) as [[envs | cause | cause]|]; reflexivity.
Qed.

(** What [NewConfig] returns, by what [loadEnv] returns. *)
Lemma NewConfig_cases (opts : list Option) :
  match loadEnv w (EnvFile (applyOpts opts zeroConfig)) with
  | (Err e, l1) =>
      NewConfig w opts = (Err (ErrorfW "failed to load environment" e), l1)
  | (Ok envs, l1) =>
      exists (r : result Config) (l2 : list string),
        resolveFields w envs (applyOpts opts zeroConfig) = (r, l2)
        /\ NewConfig w opts = (r, l1 ++ l2)
  end.
Proof.
  rewrite NewConfig_resolveFields.
  destruct (loadEnv w _) as [[envs | e] l1]; [|reflexivity].
  destruct (resolveFields w envs _) as [r l2] eqn:Hr.
  exists r, l2. split; [reflexivity|].
  unfold mbind, M_bind, bind, orWrap. now rewrite Hr.
Qed.

End Resolution.

(** C1. For each string field resolved by [NewConfig] (DatabaseURL,
    AuthServiceURL, Port, GoogleClientID, GoogleClientSecret), the value in
    the returned configuration is the entry of the file mapping under the
    field's key when that entry is present and not empty; otherwise the
    process environment variable of that key when present and not empty;
    otherwise the value the overrides left.  In particular a non-empty file
    entry wins whatever the environment and the overrides hold. *)
Theorem string_fields_by_precedence
        (w : World) (opts : list Option) (c : Config) (l : list string) :
  NewConfig w opts = (Ok c, l) ->
  exists (envs : gmap string string) (l1 : list string),
    loadEnv w (EnvFile (applyOpts opts zeroConfig)) = (Ok envs, l1)
    /\ forall (f : Field) (key override : string),
        lookupKey f = Some key ->
        getField f (applyOpts opts zeroConfig) = inl override ->
        getField f c
        = inl (byPrecedence (nonEmptyEntry envs key)
                            (nonEmptyEntry (environ w) key) override)
        /\ (forall value : string,
              envs !! key = Some value -> value <> "" ->
              getField f c = inl value).
Proof.
  intros HN. pose proof (NewConfig_cases w opts) as Hc.
  destruct (loadEnv w _) as [[envs | e] l1]; [|congruence].
  destruct Hc as (r & l2 & Hr & HN'). rewrite HN in HN'.
  injection HN' as <- ->.
  exists envs, l1. split; [reflexivity|].
  destruct (resolveFields_cases w envs (applyOpts opts zeroConfig))
    as (debug & l2' & _ & [[_ H] | [(_ & _ & H) | (_ & _ & H)]]);
    rewrite Hr in H; try discriminate H.
  injection H as -> _.
  intros f key override Hkey Hpre.
  assert (Hval : getField f
            (mkConfig
               (getEnvWithFallback w envs "DATABASE_URL"
                  (DatabaseURL (applyOpts opts zeroConfig)))
               (getEnvWithFallback w envs "AUTH_SERVICE_URL"
                  (AuthServiceURL (applyOpts opts zeroConfig)))
               debug
               (getEnvWithFallback w envs "PORT" (Port (applyOpts opts zeroConfig)))
               (EnvFile (applyOpts opts zeroConfig))
               (getEnvWithFallback w envs "GOOGLE_CLIENT_ID"
                  (GoogleClientID (applyOpts opts zeroConfig)))
               (getEnvWithFallback w envs "GOOGLE_CLIENT_SECRET"
                  (GoogleClientSecret (applyOpts opts zeroConfig))))
          = inl (byPrecedence (nonEmptyEntry envs key)
                              (nonEmptyEntry (environ w) key) override)).
  { destruct f; simpl in Hkey, Hpre |- *; try discriminate;
      injection Hkey as <-; injection Hpre as <-;
      now rewrite getEnvWithFallback_spec. }
  split; [exact Hval|].
  intros value Hfile Hne. rewrite Hval.
  unfold nonEmptyEntry at 1. rewrite Hfile.
  apply String.eqb_neq in Hne. now rewrite Hne.
Qed.

Lemma string_fields_by_precedence_witness :
  NewConfig worldDotEnv [WithDatabaseURL "postgres://code"]
  = (Ok (mkConfig "postgres://file" "http://b" false "" "" "" ""),
     ["Warning: invalid boolean value for DEBUG, using fallback"])
  /\
  exists (envs : gmap string string) (l1 : list string),
    loadEnv worldDotEnv (EnvFile (applyOpts [WithDatabaseURL "postgres://code"] zeroConfig))
    = (Ok envs, l1)
    /\ forall (f : Field) (key override : string),
        lookupKey f = Some key ->
        getField f (applyOpts [WithDatabaseURL "postgres://code"] zeroConfig)
        = inl override ->
        getField f (mkConfig "postgres://file" "http://b" false "" "" "" "")
        = inl (byPrecedence (nonEmptyEntry envs key)
                            (nonEmptyEntry (environ worldDotEnv) key) override)
        /\ (forall value : string,
              envs !! key = Some value -> value <> "" ->
              getField f (mkConfig "postgres://file" "http://b" false "" "" "" "")
              = inl value).
Proof.
  split; [vm_compute; reflexivity|].
  apply (string_fields_by_precedence worldDotEnv [WithDatabaseURL "postgres://code"]
           (mkConfig "postgres://file" "http://b" false "" "" "" "")
           ["Warning: invalid boolean value for DEBUG, using fallback"]).
  vm_compute. reflexivity.
Defined.

(** C2. Whenever [NewConfig] returns a configuration and no error, the
    [DatabaseURL] and the [AuthServiceURL] of that configuration are not
    empty. *)
Theorem required_fields_nonempty
        (w : World) (opts : list Option) (c : Config) (l : list string) :
  NewConfig w opts = (Ok c, l) ->
  DatabaseURL c <> "" /\ AuthServiceURL c <> "".
Proof.
  intros HN. pose proof (NewConfig_cases w opts) as Hc.
  destruct (loadEnv w _) as [[envs | e] l1]; [|congruence].
  destruct Hc as (r & l2 & Hr & HN'). rewrite HN in HN'.
  injection HN' as <- ->.
  destruct (resolveFields_cases w envs (applyOpts opts zeroConfig))
    as (debug & l2' & _ & [[_ H] | [(_ & _ & H) | (Hdb & Hau & H)]]);
    rewrite Hr in H; try discriminate H.
  injection H as -> _. split; assumption.
Qed.

Lemma required_fields_nonempty_witness :
  NewConfig worldEnvOnly []
  = (Ok (mkConfig "postgres://a" "http://b" false "" "" "" ""), [notFoundWarning ""])
  /\ DatabaseURL (mkConfig "postgres://a" "http://b" false "" "" "" "") <> ""
  /\ AuthServiceURL (mkConfig "postgres://a" "http://b" false "" "" "" "") <> "".
Proof.
  split; [vm_compute; reflexivity|].
  apply (required_fields_nonempty worldEnvOnly []
           (mkConfig "postgres://a" "http://b" false "" "" "" "")
           [notFoundWarning ""]).
  vm_compute. reflexivity.
Defined.


(** C3. [NewConfig] fails with the missing-field error of [DATABASE_URL]
    exactly when the file is loaded and [DatabaseURL] resolves to the empty
    string, and with that of [AUTH_SERVICE_URL] exactly when the file is
    loaded, [DatabaseURL] resolves to a non-empty string and
    [AuthServiceURL] to the empty one: [DatabaseURL] is checked first.  With
    no overrides, no file and no [DATABASE_URL] in the environment the error
    names [DATABASE_URL].  A missing-field error is never a load error. *)
Theorem missing_required_field (w : World) (opts : list Option) :
  (fst (NewConfig w opts) = Err (MissingRequiredFieldError "DATABASE_URL") <->
   exists (envs : gmap string string) (l1 : list string),
     loadEnv w (EnvFile (applyOpts opts zeroConfig)) = (Ok envs, l1)
     /\ getEnvWithFallback w envs "DATABASE_URL"
          (DatabaseURL (applyOpts opts zeroConfig)) = "")
  /\ (fst (NewConfig w opts) = Err (MissingRequiredFieldError "AUTH_SERVICE_URL") <->
      exists (envs : gmap string string) (l1 : list string),
        loadEnv w (EnvFile (applyOpts opts zeroConfig)) = (Ok envs, l1)
        /\ getEnvWithFallback w envs "DATABASE_URL"
             (DatabaseURL (applyOpts opts zeroConfig)) <> ""
        /\ getEnvWithFallback w envs "AUTH_SERVICE_URL"
             (AuthServiceURL (applyOpts opts zeroConfig)) = "")
  /\ (forall e : error,
        fst (NewConfig w opts) = Err e ->
        e = MissingRequiredFieldError "DATABASE_URL"
        \/ e = MissingRequiredFieldError "AUTH_SERVICE_URL"
        \/ exists cause : error, e = ConfigLoadError cause)
  /\ (opts = [] ->
      environ w !! "DATABASE_URL" = None ->
      fileAt w (envFilePathFor w "") = None ->
      fst (NewConfig w opts) = Err (MissingRequiredFieldError "DATABASE_URL")
      /\ errorString (MissingRequiredFieldError "DATABASE_URL")
         = "DATABASE_URL is not set")
  /\ (forall (key : string) (cause : error),
        MissingRequiredFieldError key <> ConfigLoadError cause).
Proof.
  pose proof (NewConfig_cases w opts) as Hc.
  pose proof (readEnvFile_cases w
                (envFilePathFor w (EnvFile (applyOpts opts zeroConfig)))) as Hread.
  rewrite <- loadEnv_unfold in Hread.
  destruct (loadEnv w (EnvFile (applyOpts opts zeroConfig))) as [[envs | e] l1] eqn:Hload.
  - destruct Hc as (r & l2 & Hr & ->). cbn [fst].
    destruct (resolveFields_cases w envs (applyOpts opts zeroConfig))
      as (debug & l2' & Hdebug & Hcases).
    cbn [DatabaseURL AuthServiceURL] in Hcases. rewrite Hr in Hcases.
    repeat split.
    + intros ->. exists envs, l1. split; [reflexivity|].
      destruct Hcases as [[H _] | [(_ & _ & H) | (_ & _ & H)]];
        [exact H | discriminate H | discriminate H].
    + intros (envs' & l1' & Heq & Hdb). injection Heq as <- <-.
      destruct Hcases as [[_ H] | [(Hne & _) | (Hne & _)]];
        [congruence | contradiction | contradiction].
    + intros ->. exists envs, l1. split; [reflexivity|].
      destruct Hcases as [[_ H] | [(Hdb & Hau & _) | (_ & _ & H)]];
        [discriminate H | now split | discriminate H].
    + intros (envs' & l1' & Heq & Hdb & Hau). injection Heq as <- <-.
      destruct Hcases as [[H _] | [(_ & _ & H) | (_ & Hne & _)]];
        [contradiction | congruence | contradiction].
    + intros e ->.
      destruct Hcases as [[_ H] | [(_ & _ & H) | (_ & _ & H)]];
        [left | right; left | discriminate H]; congruence.
    + subst opts. cbn [applyOpts fold_left zeroConfig EnvFile] in *.
      rewrite H1 in Hread. injection Hread as -> ->.
      rewrite !getEnvWithFallback_spec in Hcases.
      unfold nonEmptyEntry in Hcases. rewrite H0, !lookup_empty in Hcases.
      cbn [byPrecedence DatabaseURL] in Hcases.
      destruct Hcases as [[_ H] | [(Hne & _) | (Hne & _)]];
        [|contradiction | contradiction].
      now injection H as -> _.
    + discriminate.
  - rewrite Hc. cbn [fst].
    destruct (fileAt w _) as [[envs | cause | cause]|] eqn:Hfile; try discriminate Hread;
      injection Hread as -> ->;
      (repeat split; try discriminate;
       [ intros (envs' & l1' & Heq & _); discriminate Heq
       | intros (envs' & l1' & Heq & _); discriminate Heq
       | intros e He; injection He as <-; right; right; now eexists
       | subst opts; cbn [applyOpts fold_left zeroConfig EnvFile] in *; congruence ]).
Qed.

Lemma missing_required_field_witness :
  fst (NewConfig worldEmpty []) = Err (MissingRequiredFieldError "DATABASE_URL")
  /\ errorString (MissingRequiredFieldError "DATABASE_URL") = "DATABASE_URL is not set".
Proof.
  apply (missing_required_field worldEmpty []); reflexivity.
Defined.

(** C4, as the code has it.  [loadEnv] fails exactly when [godotenv.Read]
    of the path it resolved fails with an error other than "no such file":
    something is there that cannot be read as a [.env] file, or the path
    cannot be looked up at all (a parent that is a regular file, say).  The
    error then wraps the cause.  When the resolved path is empty or the
    lookup reports that no such file exists, [loadEnv] returns the empty
    mapping and logs a warning.  The same holds through [NewConfig]: with a
    path reported as not existing it goes on to resolve the fields against
    the empty mapping and never reports a load error, with any other failure
    to read it always reports one. *)
Theorem loadEnv_fails_iff_unreadable (w : World) (hint : string) :
  (forall (e : error) (l : list string),
     loadEnv w hint = (Err e, l) <->
     exists cause : string,
       (fileAt w (envFilePathFor w hint) = Some (Unreadable cause)
        \/ fileAt w (envFilePathFor w hint) = Some (NoAccess cause))
       /\ e = ErrorfW "error reading .env file" (ErrRead cause)
       /\ Unwrap e = Some (ErrRead cause)
       /\ l = [])
  /\ (envFilePathFor w hint = "" \/ fs w (envFilePathFor w hint) = None ->
      loadEnv w hint = (Ok ∅, [notFoundWarning (envFilePathFor w hint)]))
  /\ (forall opts : list Option,
        EnvFile (applyOpts opts zeroConfig) = hint ->
        (envFilePathFor w hint = "" \/ fs w (envFilePathFor w hint) = None ->
         exists (r : result Config) (l2 : list string),
           resolveFields w ∅ (applyOpts opts zeroConfig) = (r, l2)
           /\ NewConfig w opts = (r, notFoundWarning (envFilePathFor w hint) :: l2)
           /\ forall cause : error, r <> Err (ConfigLoadError cause))
        /\ (forall cause : string,
              fileAt w (envFilePathFor w hint) = Some (Unreadable cause)
              \/ fileAt w (envFilePathFor w hint) = Some (NoAccess cause) ->
              NewConfig w opts = (Err (ConfigLoadError (ErrRead cause)), []))).
Proof.
  assert (Hmissing : envFilePathFor w hint = "" \/ fs w (envFilePathFor w hint) = None ->
                     fileAt w (envFilePathFor w hint) = None).
  { unfold fileAt. intros [-> | H]; [reflexivity|].
    now destruct (String.eqb _ ""). }
  pose proof (readEnvFile_cases w (envFilePathFor w hint)) as Hread.
  rewrite <- loadEnv_unfold in Hread.
  split; [|split].
  - intros e l. split.
    + intros Hload. rewrite Hload in Hread.
      destruct (fileAt w _) as [[envs | cause | cause]|]; try discriminate Hread;
        injection Hread as -> ->; exists cause;
        (split; [auto | repeat split]).
    + intros (cause & [Hfile | Hfile] & -> & _ & ->); now rewrite Hfile in Hread.
  - intros H. now rewrite (Hmissing H) in Hread.
  - intros opts Hhint.
    pose proof (NewConfig_cases w opts) as Hc. rewrite Hhint in Hc.
    split.
    + intros H. rewrite (Hmissing H) in Hread. rewrite Hread in Hc.
      destruct Hc as (r & l2 & Hr & HN). exists r, l2.
      split; [exact Hr|]. split; [exact HN|].
      intros cause ->.
      destruct (resolveFields_cases w ∅ (applyOpts opts zeroConfig))
        as (debug & l2' & _ & [[_ H'] | [(_ & _ & H') | (_ & _ & H')]]);
        rewrite Hr in H'; discriminate H'.
    + intros cause [Hfile | Hfile]; rewrite Hfile in Hread; now rewrite Hread in Hc.
Qed.

Lemma loadEnv_fails_iff_unreadable_witness :
  (envFilePathFor worldEnvOnly "" = ""
   /\ loadEnv worldEnvOnly "" = (Ok ∅, [notFoundWarning ""])
   /\ exists (r : result Config) (l2 : list string),
       resolveFields worldEnvOnly ∅ (applyOpts [] zeroConfig) = (r, l2)
       /\ NewConfig worldEnvOnly [] = (r, notFoundWarning "" :: l2)
       /\ forall cause : error, r <> Err (ConfigLoadError cause))
  /\ (fileAt worldMalformed "/etc/app.env"
      = Some (Unreadable "unexpected character in variable name")
      /\ NewConfig worldMalformed [WithEnvFile "/etc/app.env"]
         = (Err (ConfigLoadError (ErrRead "unexpected character in variable name")), [])).
Proof.
  split.
  - split; [reflexivity|].
    pose proof (loadEnv_fails_iff_unreadable worldEnvOnly "") as (_ & Hload & Hnew).
    split; [apply Hload; left; reflexivity|].
    apply (Hnew []); [reflexivity | left; reflexivity].
  - split; [reflexivity|].
    pose proof (loadEnv_fails_iff_unreadable worldMalformed "/etc/app.env")
      as (_ & _ & Hnew).
    apply (Hnew [WithEnvFile "/etc/app.env"]); [reflexivity | left; reflexivity].
Defined.

(** C4 as it is worded fails: at a path under a regular file no file exists,
    [os.Stat] says so, and yet [loadEnv] fails and [NewConfig] is aborted,
    because the error of the lookup is not "no such file". *)
Lemma missing_file_can_abort :
  os_Stat worldNotDir "/go/src/configutil/configutil.go/.env" = false
  /\ envFilePathFor worldNotDir "/go/src/configutil/configutil.go/.env"
     = "/go/src/configutil/configutil.go/.env"
  /\ loadEnv worldNotDir "/go/src/configutil/configutil.go/.env"
     = (Err (ErrorfW "error reading .env file"
               (ErrRead "open /go/src/configutil/configutil.go/.env: not a directory")),
        [])
  /\ NewConfig worldNotDir [WithEnvFile "/go/src/configutil/configutil.go/.env"]
     = (Err (ConfigLoadError
               (ErrRead "open /go/src/configutil/configutil.go/.env: not a directory")),
        [])
  /\ ~ (forall (w : World) (opts : list Option),
          os_Stat w (envFilePathFor w (EnvFile (applyOpts opts zeroConfig))) = false ->
          forall cause : error, fst (NewConfig w opts) <> Err (ConfigLoadError cause)).
Proof.
  split; [reflexivity|]. split; [reflexivity|]. split; [reflexivity|].
  split; [reflexivity|].
  intros H.
  apply (H worldNotDir [WithEnvFile "/go/src/configutil/configutil.go/.env"] eq_refl
           (ErrRead "open /go/src/configutil/configutil.go/.env: not a directory")).
  reflexivity.
Qed.

(** C5. The overrides are applied in the order given, to the zero
    configuration, before anything is resolved.  A setter of a string
    field sets its field to its argument when the argument is not empty and
    leaves the configuration as it is when the argument is empty;
    [WithDebug] always sets [Debug]; no setter changes a field other than
    its own.  Hence of two setters of one string field with non-empty
    arguments the later one decides the value the field has before
    resolution, whatever is applied before and between them, and after them
    as long as that sets other fields or has an empty argument. *)
Theorem overrides_in_order_own_field :
  (forall (o : Option) (opts : list Option) (c : Config),
     applyOpts (o :: opts) c = applyOpts opts (o c))
  /\ (forall c : Config, applyOpts [] c = c)
  /\ (forall (w : World) (opts : list Option),
        NewConfig w opts =
        (envs ← orWrap "failed to load environment"
                  (loadEnv w (EnvFile (applyOpts opts zeroConfig))) ;
         resolveFields w envs (applyOpts opts zeroConfig)))
  /\ (forall (s : Setter) (a : string) (c : Config),
        setterArg s = inl a ->
        (a <> "" -> getField (setterField s) (toOption s c) = inl a)
        /\ (a = "" -> toOption s c = c))
  /\ (forall (debug : bool) (c : Config), Debug (WithDebug debug c) = debug)
  /\ (forall (s : Setter) (f : Field) (c : Config),
        f <> setterField s -> getField f (toOption s c) = getField f c)
  /\ (forall (before between after : list Setter) (s1 s2 : Setter)
             (a1 a2 : string) (c : Config),
        setterField s1 = setterField s2 ->
        setterArg s1 = inl a1 -> a1 <> "" ->
        setterArg s2 = inl a2 -> a2 <> "" ->
        Forall (fun s => setterField s <> setterField s2 \/ takesEffect s = false) after ->
        getField (setterField s2)
          (applyOpts (map toOption (before ++ s1 :: between ++ s2 :: after)) c)
        = inl a2).
Proof.
  split; [reflexivity|]. split; [reflexivity|]. split; [reflexivity|].
  split; [|split; [reflexivity|]; split; [exact setter_frame|]].
  - intros s a c Harg. split.
    + intros Hne. rewrite <- Harg. apply setter_effect.
      unfold takesEffect. rewrite Harg.
      apply String.eqb_neq in Hne. now rewrite Hne.
    + intros ->. apply setter_empty. unfold takesEffect. now rewrite Harg.
  - intros before between after s1 s2 a1 a2 c _ _ _ Harg Hne Hafter.
    replace (before ++ s1 :: between ++ s2 :: after)
      with ((before ++ s1 :: between) ++ [s2] ++ after)
      by (now rewrite <- app_assoc).
    rewrite !map_app, !applyOpts_app, applyOpts_frame by exact Hafter.
    cbn [map applyOpts fold_left]. rewrite <- Harg. apply setter_effect.
    unfold takesEffect. rewrite Harg.
    apply String.eqb_neq in Hne. now rewrite Hne.
Qed.

Lemma overrides_in_order_own_field_witness :
  getField FPort
    (applyOpts (map toOption ([SDebug true] ++ SPort "80" :: [SPort ""; SDatabaseURL "db"]
                              ++ SPort "8080" :: [SPort ""; SEnvFile "/x"]))
       zeroConfig)
  = inl "8080".
Proof.
  destruct overrides_in_order_own_field as (_ & _ & _ & _ & _ & _ & Hlater).
  apply (Hlater [SDebug true] [SPort ""; SDatabaseURL "db"] [SPort ""; SEnvFile "/x"]
           (SPort "80") (SPort "8080") "80" "8080" zeroConfig);
    try reflexivity; try discriminate.
  repeat constructor; discriminate.
Defined.

(** C10. [Config] has a seventh field, [EnvFile], empty in the zero
    configuration.  Of the setters only [WithEnvFile] changes it, and only
    to a non-empty argument.  [NewConfig] hands the value the overrides left
    in it to [loadEnv] as the path hint, and resolving the fields against the
    file mapping and the environment never changes it: the configuration
    [NewConfig] returns has the [EnvFile] the overrides left. *)
Theorem EnvFile_left_by_overrides :
  EnvFile zeroConfig = ""
  /\ (forall (file : string) (c : Config),
        EnvFile (WithEnvFile file c) = if String.eqb file "" then EnvFile c else file)
  /\ (forall (s : Setter) (c : Config),
        setterField s <> FEnvFile -> EnvFile (toOption s c) = EnvFile c)
  /\ (forall (w : World) (opts : list Option),
        NewConfig w opts =
        (envs ← orWrap "failed to load environment"
                  (loadEnv w (EnvFile (applyOpts opts zeroConfig))) ;
         resolveFields w envs (applyOpts opts zeroConfig)))
  /\ (forall (w : World) (envs : gmap string string) (c c' : Config) (l : list string),
        resolveFields w envs c = (Ok c', l) -> EnvFile c' = EnvFile c)
  /\ (forall (w : World) (opts : list Option) (c : Config) (l : list string),
        NewConfig w opts = (Ok c, l) ->
        EnvFile c = EnvFile (applyOpts opts zeroConfig)).
Proof.
  assert (Hres : forall (w : World) (envs : gmap string string) (c c' : Config)
                        (l : list string),
             resolveFields w envs c = (Ok c', l) -> EnvFile c' = EnvFile c).
  { intros w envs c c' l Hr.
    destruct (resolveFields_cases w envs c)
      as (debug & l' & _ & [[_ H] | [(_ & _ & H) | (_ & _ & H)]]);
      rewrite Hr in H; try discriminate H.
    now injection H as -> _. }
  split; [reflexivity|]. split.
  { intros file c. unfold WithEnvFile. now destruct (String.eqb file ""). }
  split.
  { intros s c Hs.
    assert (H : getField FEnvFile (toOption s c) = getField FEnvFile c)
      by (apply setter_frame; congruence).
    now injection H. }
  split; [intros; apply NewConfig_resolveFields|].
  split; [exact Hres|].
  intros w opts c l HN. pose proof (NewConfig_cases w opts) as Hc.
  destruct (loadEnv w _) as [[envs | e] l1]; [|congruence].
  destruct Hc as (r & l2 & Hr & HN'). rewrite HN in HN'.
  injection HN' as <- ->. exact (Hres _ _ _ _ _ Hr).
Qed.

Lemma EnvFile_left_by_overrides_witness :
  NewConfig worldDotEnv [WithEnvFile "/missing"; WithPort "80"]
  = (Ok (mkConfig "postgres://env" "http://b" false "80" "/missing" "" ""),
     [notFoundWarning "/missing"])
  /\ EnvFile (mkConfig "postgres://env" "http://b" false "80" "/missing" "" "")
     = EnvFile (applyOpts [WithEnvFile "/missing"; WithPort "80"] zeroConfig).
Proof.
  split; [vm_compute; reflexivity|].
  destruct EnvFile_left_by_overrides as (_ & _ & _ & _ & _ & Hnew).
  apply (Hnew worldDotEnv [WithEnvFile "/missing"; WithPort "80"] _
           [notFoundWarning "/missing"]).
  vm_compute. reflexivity.
Defined.

(** C6. When the string found for a boolean field in the file mapping or in
    the process environment does not parse as a boolean,
    [getBoolEnvWithFallback] logs a warning and returns the fallback; it
    never fails.  When neither source holds a non-empty entry, the fallback
    is formatted, parsed back and returned as it was, with no warning.  In
    [NewConfig] an unparseable [DEBUG] therefore leaves [Debug] as the
    overrides set it and adds one warning to the log, the outcome being
    otherwise that of validation; so a file with [DEBUG=notabool] and no
    [WithDebug] override gives [Debug = false]. *)
Theorem invalid_bool_keeps_fallback :
  (forall (w : World) (envs : gmap string string) (key : string) (fallback : bool),
     strconv.ParseBool
       (getEnvWithFallback w envs key (strconv.FormatBool fallback)) = None ->
     getBoolEnvWithFallback w envs key fallback = (Ok fallback, [boolWarning key]))
  /\ (forall (w : World) (envs : gmap string string) (key : string) (fallback : bool),
        nonEmptyEntry envs key = None ->
        nonEmptyEntry (environ w) key = None ->
        strconv.ParseBool (strconv.FormatBool fallback) = Some fallback
        /\ getBoolEnvWithFallback w envs key fallback = (Ok fallback, []))
  /\ (forall (w : World) (opts : list Option) (envs : gmap string string)
             (l1 : list string),
        loadEnv w (EnvFile (applyOpts opts zeroConfig)) = (Ok envs, l1) ->
        strconv.ParseBool
          (getEnvWithFallback w envs "DEBUG"
             (strconv.FormatBool (Debug (applyOpts opts zeroConfig)))) = None ->
        exists r : result Config,
          NewConfig w opts = (r, l1 ++ [boolWarning "DEBUG"])
          /\ (forall c : Config,
                r = Ok c -> Debug c = Debug (applyOpts opts zeroConfig))
          /\ (getEnvWithFallback w envs "DATABASE_URL"
                (DatabaseURL (applyOpts opts zeroConfig)) <> "" ->
              getEnvWithFallback w envs "AUTH_SERVICE_URL"
                (AuthServiceURL (applyOpts opts zeroConfig)) <> "" ->
              exists c : Config, r = Ok c))
  /\ (forall (w : World) (envs : gmap string string) (fallback : string),
        envs !! "DEBUG" = Some "notabool" ->
        strconv.ParseBool (getEnvWithFallback w envs "DEBUG" fallback) = None)
  /\ Debug (applyOpts [] zeroConfig) = false.
Proof.
  split; [|split; [|split; [|split; [|reflexivity]]]].
  - intros w envs key fallback Hparse.
    unfold getBoolEnvWithFallback. now rewrite Hparse.
  - intros w envs key fallback Hfile Henv.
    split; [apply ParseBool_FormatBool|].
    unfold getBoolEnvWithFallback.
    rewrite getEnvWithFallback_spec, Hfile, Henv. cbn [byPrecedence].
    now rewrite ParseBool_FormatBool.
  - intros w opts envs l1 Hload Hparse.
    pose proof (NewConfig_cases w opts) as Hc. rewrite Hload in Hc.
    destruct Hc as (r & l2 & Hr & HN).
    destruct (resolveFields_cases w envs (applyOpts opts zeroConfig))
      as (debug & l2' & Hdebug & Hcases).
    unfold getBoolEnvWithFallback in Hdebug. rewrite Hparse in Hdebug.
    injection Hdebug as <- <-.
    rewrite Hr in Hcases. cbn [DatabaseURL AuthServiceURL] in Hcases.
    exists r.
    destruct Hcases as [[Hdb H] | [(Hdb & Hau & H) | (Hdb & Hau & H)]];
      injection H as -> ->; (split; [exact HN|]); split;
      try discriminate; try contradiction.
    + intros c Hc. now injection Hc as <-.
    + intros _ _. now eexists.
  - intros w envs fallback Hfile.
    rewrite getEnvWithFallback_spec. unfold nonEmptyEntry at 1.
    rewrite Hfile. reflexivity.
Qed.

Lemma invalid_bool_keeps_fallback_witness :
  envFilePathFor worldDotEnv "" = "/go/.env"
  /\ NewConfig worldDotEnv []
     = (Ok (mkConfig "postgres://file" "http://b" false "" "" "" ""),
        [boolWarning "DEBUG"])
  /\ exists r : result Config,
      NewConfig worldDotEnv [] = (r, [] ++ [boolWarning "DEBUG"])
      /\ (forall c : Config, r = Ok c -> Debug c = Debug (applyOpts [] zeroConfig))
      /\ (getEnvWithFallback worldDotEnv
            (<["DATABASE_URL" := "postgres://file"]> (<["DEBUG" := "notabool"]> ∅))
            "DATABASE_URL" (DatabaseURL (applyOpts [] zeroConfig)) <> "" ->
          getEnvWithFallback worldDotEnv
            (<["DATABASE_URL" := "postgres://file"]> (<["DEBUG" := "notabool"]> ∅))
            "AUTH_SERVICE_URL" (AuthServiceURL (applyOpts [] zeroConfig)) <> "" ->
          exists c : Config, r = Ok c).
Proof.
  split; [vm_compute; reflexivity|]. split; [vm_compute; reflexivity|].
  destruct invalid_bool_keeps_fallback as (_ & _ & Hnew & _).
  apply (Hnew worldDotEnv []
           (<["DATABASE_URL" := "postgres://file"]> (<["DEBUG" := "notabool"]> ∅)) []);
    vm_compute; reflexivity.
Defined.

Section Determinism.
Variables w1 w2 : World.
Hypothesis Hsame : sameInputs w1 w2.

Lemma same_fileAt (path : string) : fileAt w1 path = fileAt w2 path.
Proof. unfold fileAt. destruct Hsame as (_ & Hfs & _). now rewrite Hfs. Qed.

Lemma same_findEnvFilePathLoop (fuel : nat) (dir : string) :
  findEnvFilePathLoop w1 fuel dir = findEnvFilePathLoop w2 fuel dir.
Proof.
  revert dir. induction fuel as [|fuel IH]; intros dir; [reflexivity|].
  cbn [findEnvFilePathLoop]. unfold os_Stat.
  rewrite same_fileAt, IH. reflexivity.
Qed.

Lemma same_envFilePathFor (hint : string) :
  envFilePathFor w1 hint = envFilePathFor w2 hint.
Proof.
  destruct Hsame as (Henv & _ & Hcaller).
  unfold envFilePathFor, os_Getenv, findEnvFilePath.
  rewrite (Henv "ENV_FILE"), Hcaller, same_findEnvFilePathLoop;
    [reflexivity | simpl; auto].
Qed.

Lemma same_loadEnv (hint : string) : loadEnv w1 hint = loadEnv w2 hint.
Proof.
  rewrite !loadEnv_unfold. unfold readEnvFile, godotenv_Read.
  now rewrite same_envFilePathFor, same_fileAt.
Qed.

Lemma same_getEnvWithFallback (envs : gmap string string) (key fallback : string) :
  In key consultedKeys ->
  getEnvWithFallback w1 envs key fallback = getEnvWithFallback w2 envs key fallback.
Proof.
  intros Hkey. destruct Hsame as (Henv & _).
  unfold getEnvWithFallback, os_LookupEnv. now rewrite (Henv key Hkey).
Qed.

Lemma same_resolveFields (envs : gmap string string) (c : Config) :
  resolveFields w1 envs c = resolveFields w2 envs c.
Proof.
  unfold resolveFields, getBoolEnvWithFallback.
  rewrite !(same_getEnvWithFallback envs) by (simpl; tauto).
  reflexivity.
Qed.

End Determinism.

Lemma sameOverrides_applyOpts (opts1 opts2 : list Option) :
  sameOverrides opts1 opts2 ->
  forall c : Config, applyOpts opts1 c = applyOpts opts2 c.
Proof.
  induction 1 as [|o1 o2 opts1 opts2 Ho _ IH]; intros c; [reflexivity|].
  change (applyOpts opts1 (o1 c) = applyOpts opts2 (o2 c)).
  now rewrite Ho, IH.
Qed.

(** C7. [NewConfig] is a function of its inputs: run in two worlds with the
    same values of the environment variables it reads, the same files and
    the same source location, on overrides that perform the same updates, it
    returns the same result and logs the same lines: equal configurations,
    field for field, or the same error. *)
Theorem NewConfig_deterministic (w1 w2 : World) (opts1 opts2 : list Option) :
  sameInputs w1 w2 ->
  sameOverrides opts1 opts2 ->
  NewConfig w1 opts1 = NewConfig w2 opts2
  /\ (forall (c1 c2 : Config) (l1 l2 : list string),
        NewConfig w1 opts1 = (Ok c1, l1) ->
        NewConfig w2 opts2 = (Ok c2, l2) ->
        forall f : Field, getField f c1 = getField f c2)
  /\ (forall (e : error) (l : list string),
        NewConfig w1 opts1 = (Err e, l) -> NewConfig w2 opts2 = (Err e, l)).
Proof.
  intros Hsame Hopts.
  assert (Heq : NewConfig w1 opts1 = NewConfig w2 opts2).
  { rewrite !NewConfig_resolveFields.
    rewrite (sameOverrides_applyOpts _ _ Hopts zeroConfig).
    rewrite (same_loadEnv w1 w2 Hsame).
    destruct (loadEnv w2 _) as [[envs | e] l1]; [|reflexivity].
    unfold mbind, M_bind, bind, orWrap.
    now rewrite (same_resolveFields w1 w2 Hsame). }
  split; [exact Heq|]. split.
  - intros c1 c2 l1 l2 H1 H2 f. rewrite Heq, H2 in H1. now injection H1 as <- _.
  - intros e l H1. now rewrite <- Heq.
Qed.

Lemma NewConfig_deterministic_witness :
  sameInputs worldDotEnv worldDotEnv'
  /\ sameOverrides [WithPort "80"; WithDebug true] [WithPort "80"; WithDebug true]
  /\ NewConfig worldDotEnv [WithPort "80"; WithDebug true]
     = NewConfig worldDotEnv' [WithPort "80"; WithDebug true].
Proof.
  assert (H1 : sameInputs worldDotEnv worldDotEnv').
  { split; [|split; reflexivity].
    intros key Hkey. simpl in Hkey.
    repeat (destruct Hkey as [<- | Hkey]; [vm_compute; reflexivity|]).
    contradiction. }
  assert (H2 : sameOverrides [WithPort "80"; WithDebug true]
                             [WithPort "80"; WithDebug true]).
  { repeat constructor. }
  split; [exact H1|]. split; [exact H2|].
  exact (proj1 (NewConfig_deterministic worldDotEnv worldDotEnv' _ _ H1 H2)).
Defined.

Section Rooted.
Import filepath.






End Rooted.




(** C9. The upward search ends from every starting directory.  Each turn
    of its loop calls [os.Stat] once and then returns the [.env] it found,
    or leaves with the empty path because the directory is its own parent
    ([/] or [.]), or goes on from the parent.  The number of turns is at
    least one and at most the number of separators of the starting path
    plus two, and [findEnvFilePath] returns what the loop leaves with. *)
Theorem findEnvFilePath_terminates (w : World) (startDir : string) :
  (exists (probes : nat) (r : string),
     searches w startDir probes r
     /\ 1 <= probes <= countSep startDir + 2
     /\ (forall fuel : nat,
           probes <= fuel -> findEnvFilePathLoop w fuel startDir = Some r)
     /\ (forall fuel : nat,
           fuel < probes -> findEnvFilePathLoop w fuel startDir = None)
     /\ findEnvFilePath w startDir = r)
  /\ (forall dir : string,
        filepath.Dir dir = dir <-> dir = "/" \/ dir = ".").
Proof.
  split.
  - destruct (findEnvFilePath_searches w startDir) as (probes & r & Hrun & Hle & Hr).
    exists probes, r. split; [exact Hrun|].
    split; [split; [exact (searches_pos w _ _ _ Hrun) | exact Hle]|].
    split; [intros fuel; apply (searches_loop w _ _ _ Hrun)|].
    split; [intros fuel; apply (searches_loop w _ _ _ Hrun) | exact Hr].
  - intros dir. split; [apply Dir_fixed|]. now intros [-> | ->].
Qed.

(** ** Further properties of the package *)

Section Outcome.
Variable w : World.

Lemma nonEmptyEntry_Some (m : gmap string string) (key value : string) :
  nonEmptyEntry m key = Some value <-> m !! key = Some value /\ value <> "".
Proof.
  unfold nonEmptyEntry. destruct (m !! key) as [v|]; [|split; [|intros [? _]]; discriminate].
  destruct (String.eqb_spec v "") as [-> | Hne]; split.
  - discriminate.
  - intros [H Hv]. now injection H as <-.
  - intros H. injection H as <-. now split.
  - intros [H _]. exact H.
Qed.

Lemma getBoolEnvWithFallback_eq (envs : gmap string string) (fallback : bool) :
  getBoolEnvWithFallback w envs "DEBUG" fallback
  = (Ok (resolvedDebug w envs fallback), debugLog w envs fallback).
Proof.
  unfold getBoolEnvWithFallback, resolvedDebug, debugLog.
  now destruct (strconv.ParseBool _).
Qed.

Lemma resolveFields_ok (envs : gmap string string) (c : Config) :
  DatabaseURL (resolvedConfig w envs c) <> "" ->
  AuthServiceURL (resolvedConfig w envs c) <> "" ->
  resolveFields w envs c = (Ok (resolvedConfig w envs c), debugLog w envs (Debug c)).
Proof.
  intros Hdb Hau.
  destruct (resolveFields_cases w envs c) as (debug & l & Hdebug & Hcases).
  rewrite getBoolEnvWithFallback_eq in Hdebug. injection Hdebug as <- <-.
  destruct Hcases as [[H _] | [(_ & H & _) | (_ & _ & H)]];
    [contradiction | contradiction | exact H].
Qed.

Lemma resolveFields_ok_inv (envs : gmap string string) (c c' : Config)
      (l : list string) :
  resolveFields w envs c = (Ok c', l) ->
  c' = resolvedConfig w envs c /\ l = debugLog w envs (Debug c)
  /\ DatabaseURL c' <> "" /\ AuthServiceURL c' <> "".
Proof.
  intros Hr.
  destruct (resolveFields_cases w envs c) as (debug & l' & Hdebug & Hcases).
  rewrite getBoolEnvWithFallback_eq in Hdebug. injection Hdebug as <- <-.
  destruct Hcases as [[_ H] | [(_ & _ & H) | (Hdb & Hau & H)]];
    rewrite Hr in H; try discriminate H.
  injection H as -> ->. repeat split; assumption.
Qed.

Lemma resolveFields_log (envs : gmap string string) (c : Config) :
  snd (resolveFields w envs c) = debugLog w envs (Debug c).
Proof.
  destruct (resolveFields_cases w envs c) as (debug & l' & Hdebug & Hcases).
  rewrite getBoolEnvWithFallback_eq in Hdebug. injection Hdebug as <- <-.
  destruct Hcases as [[_ H] | [(_ & _ & H) | (_ & _ & H)]]; now rewrite H.
Qed.

(** What [loadEnv] returns, by what the file system holds at the path. *)
Lemma loadEnv_fileMapping (hint : string) :
  match fileAt w (envFilePathFor w hint) with
  | None =>
      loadEnv w hint
      = (Ok (fileMapping w hint), [notFoundWarning (envFilePathFor w hint)])
  | Some (DotEnv _) => loadEnv w hint = (Ok (fileMapping w hint), [])
  | Some (Unreadable cause) | Some (NoAccess cause) =>
      loadEnv w hint = (Err (ErrorfW "error reading .env file" (ErrRead cause)), [])
  end.
Proof.
  pose proof (readEnvFile_cases w (envFilePathFor w hint)) as Hread.
  rewrite <- loadEnv_unfold in Hread. unfold fileMapping.
  now destruct (fileAt w _) as [[envs | cause | cause]|].
Qed.

Lemma loadEnv_ok_fileMapping (hint : string) (envs : gmap string string)
      (l : list string) :
  loadEnv w hint = (Ok envs, l) -> envs = fileMapping w hint.
Proof.
  intros Hload. pose proof (loadEnv_fileMapping hint) as H.
  destruct (fileAt w _) as [[envs' | cause | cause]|]; congruence.
Qed.

Lemma NewConfig_ok (opts : list Option) (envs : gmap string string)
      (l1 : list string) :
  loadEnv w (EnvFile (applyOpts opts zeroConfig)) = (Ok envs, l1) ->
  DatabaseURL (resolvedConfig w envs (applyOpts opts zeroConfig)) <> "" ->
  AuthServiceURL (resolvedConfig w envs (applyOpts opts zeroConfig)) <> "" ->
  NewConfig w opts
  = (Ok (resolvedConfig w envs (applyOpts opts zeroConfig)),
     l1 ++ debugLog w envs (Debug (applyOpts opts zeroConfig))).
Proof.
  intros Hload Hdb Hau. pose proof (NewConfig_cases w opts) as Hc.
  rewrite Hload in Hc. destruct Hc as (r & l2 & Hr & ->).
  rewrite (resolveFields_ok _ _ Hdb Hau) in Hr. now injection Hr as <- <-.
Qed.

Lemma NewConfig_ok_inv (opts : list Option) (c : Config) (l : list string) :
  NewConfig w opts = (Ok c, l) ->
  exists (envs : gmap string string) (l1 : list string),
    loadEnv w (EnvFile (applyOpts opts zeroConfig)) = (Ok envs, l1)
    /\ envs = fileMapping w (EnvFile (applyOpts opts zeroConfig))
    /\ c = resolvedConfig w envs (applyOpts opts zeroConfig)
    /\ l = l1 ++ debugLog w envs (Debug (applyOpts opts zeroConfig))
    /\ DatabaseURL c <> "" /\ AuthServiceURL c <> "".
Proof.
  intros HN. pose proof (NewConfig_cases w opts) as Hc.
  destruct (loadEnv w _) as [[envs | e] l1] eqn:Hload; [|congruence].
  destruct Hc as (r & l2 & Hr & HN'). rewrite HN in HN'. injection HN' as <- ->.
  apply resolveFields_ok_inv in Hr as (-> & -> & Hdb & Hau).
  exists envs, l1. split; [reflexivity|].
  split; [exact (loadEnv_ok_fileMapping _ _ _ Hload)|]. now repeat split.
Qed.

Lemma getEnvWithFallback_empty (envs : gmap string string) (key fallback : string) :
  getEnvWithFallback w envs key fallback = "" <->
  nonEmptyEntry envs key = None
  /\ nonEmptyEntry (environ w) key = None
  /\ fallback = "".
Proof.
  rewrite getEnvWithFallback_spec.
  destruct (nonEmptyEntry envs key) as [v|] eqn:Hf.
  { apply nonEmptyEntry_Some in Hf as [_ Hv]. cbn.
    split; [contradiction | intros [? _]; discriminate]. }
  destruct (nonEmptyEntry (environ w) key) as [v|] eqn:He.
  { apply nonEmptyEntry_Some in He as [_ Hv]. cbn.
    split; [contradiction | intros (_ & ? & _); discriminate]. }
  cbn. split; [now intros -> | now intros (_ & _ & ->)].
Qed.

Lemma getEnvWithFallback_hasValue (envs : gmap string string) (key fallback : string) :
  getEnvWithFallback w envs key fallback <> "" <-> hasValue w envs key fallback.
Proof.
  rewrite getEnvWithFallback_empty. unfold hasValue.
  destruct (nonEmptyEntry envs key); [split; [left; discriminate | intros _ [? _]; discriminate]|].
  destruct (nonEmptyEntry (environ w) key);
    [split; [right; left; discriminate | intros _ (_ & ? & _); discriminate]|].
  destruct (String.eqb_spec fallback "") as [-> | Hne].
  - split; [intros H; exfalso; now apply H | intros [H | [H | H]] _; now apply H].
  - split; [now right; right | intros _ (_ & _ & ?); contradiction].
Qed.

End Outcome.

(** X1. [getEnvWithFallback] returns the empty string only when the file
    mapping and the process environment hold no non-empty entry for the
    key and the fallback is empty too: with a non-empty fallback, that is a
    non-empty override, the result is never empty. *)
Theorem getEnvWithFallback_empty_iff
        (w : World) (envs : gmap string string) (key fallback : string) :
  getEnvWithFallback w envs key fallback = "" <->
  nonEmptyEntry envs key = None
  /\ nonEmptyEntry (environ w) key = None
  /\ fallback = "".
Proof. apply getEnvWithFallback_empty. Qed.

(** X2. [NewConfig] returns a configuration exactly when reading the
    resolved path does not fail with an error other than "no such file"
    (what is there is not unreadable, and the path can be looked up) and
    each of [DATABASE_URL] and [AUTH_SERVICE_URL] has a non-empty value in
    the file, in the process environment or from the overrides.  No other
    field and no other key decides between success and failure. *)
Theorem NewConfig_succeeds_iff (w : World) (opts : list Option) :
  (exists (c : Config) (l : list string), NewConfig w opts = (Ok c, l)) <->
  (forall cause : string,
     fileAt w (envFilePathFor w (EnvFile (applyOpts opts zeroConfig)))
     <> Some (Unreadable cause))
  /\ (forall cause : string,
        fileAt w (envFilePathFor w (EnvFile (applyOpts opts zeroConfig)))
        <> Some (NoAccess cause))
  /\ hasValue w (fileMapping w (EnvFile (applyOpts opts zeroConfig)))
       "DATABASE_URL" (DatabaseURL (applyOpts opts zeroConfig))
  /\ hasValue w (fileMapping w (EnvFile (applyOpts opts zeroConfig)))
       "AUTH_SERVICE_URL" (AuthServiceURL (applyOpts opts zeroConfig)).
Proof.
  pose proof (loadEnv_fileMapping w (EnvFile (applyOpts opts zeroConfig))) as Hload.
  split.
  - intros (c & l & HN).
    apply NewConfig_ok_inv in HN as (envs & l1 & Hl & -> & -> & _ & Hdb & Hau).
    split; [|split].
    + intros cause Hfile. rewrite Hfile in Hload. congruence.
    + intros cause Hfile. rewrite Hfile in Hload. congruence.
    + split; apply getEnvWithFallback_hasValue; assumption.
  - intros (Hfile & Hpath & Hdb & Hau).
    apply getEnvWithFallback_hasValue in Hdb, Hau.
    destruct (fileAt w _) as [[envs | cause | cause]|] eqn:Hat.
    + eexists _, _. exact (NewConfig_ok w opts _ _ Hload Hdb Hau).
    + now destruct (Hfile cause).
    + now destruct (Hpath cause).
    + eexists _, _. exact (NewConfig_ok w opts _ _ Hload Hdb Hau).
Qed.

(** X3. The [Debug] field follows the same precedence as the string
    fields, with the winning string parsed as a boolean.  A non-empty
    [DEBUG] in the file decides alone: when it parses, [Debug] is its value,
    whatever [WithDebug] and the environment say; when it does not parse,
    [Debug] is the value the overrides left, and a valid [DEBUG] of the
    process environment is not consulted.  Without a non-empty file entry
    the same holds of the environment variable, and without either [Debug]
    is the value the overrides left. *)
Theorem Debug_by_precedence
        (w : World) (opts : list Option) (c : Config) (l : list string) :
  NewConfig w opts = (Ok c, l) ->
  (forall value : string,
     nonEmptyEntry (fileMapping w (EnvFile (applyOpts opts zeroConfig))) "DEBUG"
     = Some value ->
     Debug c = default (Debug (applyOpts opts zeroConfig)) (strconv.ParseBool value))
  /\ (nonEmptyEntry (fileMapping w (EnvFile (applyOpts opts zeroConfig))) "DEBUG"
      = None ->
      forall value : string,
        nonEmptyEntry (environ w) "DEBUG" = Some value ->
        Debug c = default (Debug (applyOpts opts zeroConfig)) (strconv.ParseBool value))
  /\ (nonEmptyEntry (fileMapping w (EnvFile (applyOpts opts zeroConfig))) "DEBUG"
      = None ->
      nonEmptyEntry (environ w) "DEBUG" = None ->
      Debug c = Debug (applyOpts opts zeroConfig)).
Proof.
  intros HN.
  apply NewConfig_ok_inv in HN as (envs & l1 & _ & -> & -> & _).
  cbn [Debug resolvedConfig]. unfold resolvedDebug.
  rewrite getEnvWithFallback_spec.
  split; [|split].
  - intros value ->. reflexivity.
  - intros -> value ->. reflexivity.
  - intros -> ->. cbn [byPrecedence]. now rewrite ParseBool_FormatBool.
Qed.

Lemma Debug_by_precedence_witness :
  NewConfig worldDebugClash [WithDebug false]
  = (Ok (mkConfig "postgres://file" "http://b" false "" "" "" ""),
     [boolWarning "DEBUG"])
  /\ nonEmptyEntry (environ worldDebugClash) "DEBUG" = Some "true"
  /\ nonEmptyEntry (fileMapping worldDebugClash
                      (EnvFile (applyOpts [WithDebug false] zeroConfig))) "DEBUG"
     = Some "notabool"
  /\ Debug (mkConfig "postgres://file" "http://b" false "" "" "" "")
     = default (Debug (applyOpts [WithDebug false] zeroConfig))
               (strconv.ParseBool "notabool").
Proof.
  split; [vm_compute; reflexivity|]. split; [vm_compute; reflexivity|].
  split; [vm_compute; reflexivity|].
  destruct (Debug_by_precedence worldDebugClash [WithDebug false]
              (mkConfig "postgres://file" "http://b" false "" "" "" "")
              [boolWarning "DEBUG"]) as (Hfile & _ & _);
    [vm_compute; reflexivity|].
  apply (Hfile "notabool"). vm_compute. reflexivity.
Defined.

Section SettersCompose.

Lemma applyOpts_optionsOf (c : Config) : applyOpts (optionsOf c) zeroConfig = c.
Proof.
  destruct c as [db au dbg port file gid gsec].
  unfold optionsOf, applyOpts, WithDatabaseURL, WithAuthServiceURL, WithDebug,
    WithPort, WithEnvFile, WithGoogleClientID, WithGoogleClientSecret.
  cbn [fold_left DatabaseURL AuthServiceURL Debug Port EnvFile GoogleClientID
         GoogleClientSecret].
  destruct (String.eqb_spec db "") as [-> | _];
    destruct (String.eqb_spec au "") as [-> | _];
    destruct (String.eqb_spec port "") as [-> | _];
    destruct (String.eqb_spec file "") as [-> | _];
    destruct (String.eqb_spec gid "") as [-> | _];
    destruct (String.eqb_spec gsec "") as [-> | _]; reflexivity.
Qed.

Lemma toOption_cases (s : Setter) (c : Config) :
  toOption s c = c
  \/ toOption s c
     = match s with
       | SDatabaseURL a => set_DatabaseURL a c
       | SAuthServiceURL a => set_AuthServiceURL a c
       | SDebug b => set_Debug b c
       | SPort a => set_Port a c
       | SEnvFile a => set_EnvFile a c
       | SGoogleClientID a => set_GoogleClientID a c
       | SGoogleClientSecret a => set_GoogleClientSecret a c
       end.
Proof.
  destruct s; cbn [toOption];
    unfold WithDatabaseURL, WithAuthServiceURL, WithDebug, WithPort, WithEnvFile,
      WithGoogleClientID, WithGoogleClientSecret;
    try (destruct (String.eqb _ ""); cbn [negb]); auto.
Qed.

Lemma toOption_effect (s : Setter) (c : Config) :
  takesEffect s = true ->
  toOption s c
  = match s with
    | SDatabaseURL a => set_DatabaseURL a c
    | SAuthServiceURL a => set_AuthServiceURL a c
    | SDebug b => set_Debug b c
    | SPort a => set_Port a c
    | SEnvFile a => set_EnvFile a c
    | SGoogleClientID a => set_GoogleClientID a c
    | SGoogleClientSecret a => set_GoogleClientSecret a c
    end.
Proof.
  unfold takesEffect. destruct s; cbn [setterArg toOption]; intros He;
    unfold WithDatabaseURL, WithAuthServiceURL, WithDebug, WithPort, WithEnvFile,
      WithGoogleClientID, WithGoogleClientSecret; now rewrite ?He.
Qed.

Lemma toOption_commute (s1 s2 : Setter) (c : Config) :
  setterField s1 <> setterField s2 ->
  toOption s1 (toOption s2 c) = toOption s2 (toOption s1 c).
Proof.
  intros Hne.
  destruct s1, s2; cbn [setterField] in Hne; try contradiction;
    cbn [toOption];
    unfold WithDatabaseURL, WithAuthServiceURL, WithDebug, WithPort, WithEnvFile,
      WithGoogleClientID, WithGoogleClientSecret;
    repeat match goal with
           | |- context [String.eqb ?a ""] => destruct (String.eqb a "")
           end; reflexivity.
Qed.

Lemma applyOpts_perm (ss1 ss2 : list Setter) :
  Permutation ss1 ss2 ->
  NoDup (map setterField ss1) ->
  forall c : Config,
    applyOpts (map toOption ss1) c = applyOpts (map toOption ss2) c.
Proof.
  induction 1 as [|s ss1 ss2 Hperm IH | s1 s2 ss | ss1 ss2 ss3 H12 IH12 H23 IH23];
    intros Hnd c.
  - reflexivity.
  - cbn [map] in *. apply NoDup_cons_1_2 in Hnd.
    change (applyOpts (map toOption ss1) (toOption s c)
            = applyOpts (map toOption ss2) (toOption s c)).
    now apply IH.
  - cbn [map] in *.
    change (applyOpts (map toOption ss) (toOption s1 (toOption s2 c))
            = applyOpts (map toOption ss) (toOption s2 (toOption s1 c))).
    rewrite toOption_commute; [reflexivity|].
    apply NoDup_cons in Hnd as [Hnotin _]. intros Heq. apply Hnotin.
    rewrite Heq. left.
  - rewrite IH12 by exact Hnd. apply IH23.
    now rewrite <- (Permutation_map setterField H12).
Qed.

End SettersCompose.

(** X4. The setters rebuild any configuration: applied to the zero
    configuration with the values of the fields of [c], they give [c]. *)
Theorem optionsOf_roundtrip (c : Config) :
  applyOpts (optionsOf c) zeroConfig = c
  /\ forall f : Field, getField f (applyOpts (optionsOf c) zeroConfig) = getField f c.
Proof.
  split; [apply applyOpts_optionsOf|]. intros f. now rewrite applyOpts_optionsOf.
Qed.

(** X5. The order of overrides matters only among setters of one field:
    two lists of setters that are permutations of each other and set
    pairwise different fields leave the same configuration. *)
Theorem overrides_order_irrelevant_across_fields
        (ss1 ss2 : list Setter) (c : Config) :
  Permutation ss1 ss2 ->
  NoDup (map setterField ss1) ->
  applyOpts (map toOption ss1) c = applyOpts (map toOption ss2) c.
Proof. intros Hperm Hnd. now apply applyOpts_perm. Qed.

Lemma overrides_order_irrelevant_across_fields_witness :
  applyOpts (map toOption [SPort "80"; SDebug true; SDatabaseURL "db"]) zeroConfig
  = applyOpts (map toOption [SDatabaseURL "db"; SPort "80"; SDebug true]) zeroConfig.
Proof.
  apply (overrides_order_irrelevant_across_fields
           [SPort "80"; SDebug true; SDatabaseURL "db"]
           [SDatabaseURL "db"; SPort "80"; SDebug true] zeroConfig).
  - etransitivity; [apply perm_skip, perm_swap | apply perm_swap].
  - cbn. repeat (apply NoDup_cons; split; [|]); try apply NoDup_nil;
      rewrite ?elem_of_cons; rewrite ?elem_of_nil; intuition discriminate.
Defined.

Section Stability.
Variable w : World.

Lemma getEnvWithFallback_idem (envs : gmap string string) (key fallback : string) :
  getEnvWithFallback w envs key (getEnvWithFallback w envs key fallback)
  = getEnvWithFallback w envs key fallback.
Proof.
  rewrite !getEnvWithFallback_spec.
  destruct (nonEmptyEntry envs key); [reflexivity|].
  now destruct (nonEmptyEntry (environ w) key).
Qed.

(** Whether [DEBUG] draws a warning does not depend on the fallback. *)
Lemma debugLog_fallback (envs : gmap string string) (fallback1 fallback2 : bool) :
  debugLog w envs fallback1 = debugLog w envs fallback2.
Proof.
  unfold debugLog. rewrite !getEnvWithFallback_spec.
  destruct (nonEmptyEntry envs "DEBUG"); [reflexivity|].
  destruct (nonEmptyEntry (environ w) "DEBUG"); [reflexivity|].
  cbn [byPrecedence]. now rewrite !ParseBool_FormatBool.
Qed.

Lemma resolvedDebug_idem (envs : gmap string string) (fallback : bool) :
  resolvedDebug w envs (resolvedDebug w envs fallback) = resolvedDebug w envs fallback.
Proof.
  unfold resolvedDebug. rewrite !getEnvWithFallback_spec.
  destruct (nonEmptyEntry envs "DEBUG") as [v|];
    [cbn [byPrecedence]; now destruct (strconv.ParseBool v)|].
  destruct (nonEmptyEntry (environ w) "DEBUG") as [v|];
    [cbn [byPrecedence]; now destruct (strconv.ParseBool v)|].
  cbn [byPrecedence]. now rewrite !ParseBool_FormatBool.
Qed.

Lemma resolvedConfig_idem (envs : gmap string string) (c : Config) :
  resolvedConfig w envs (resolvedConfig w envs c) = resolvedConfig w envs c.
Proof.
  unfold resolvedConfig at 1.
  cbn [resolvedConfig DatabaseURL AuthServiceURL Debug Port EnvFile
         GoogleClientID GoogleClientSecret].
  rewrite !getEnvWithFallback_idem, resolvedDebug_idem. reflexivity.
Qed.

(** The value of a field after resolution depends on its value before
    only: a setter of another field does not change it. *)
Lemma resolvedConfig_frame (envs : gmap string string) (s : Setter) (f : Field)
      (c : Config) :
  f <> setterField s ->
  getField f (resolvedConfig w envs (toOption s c))
  = getField f (resolvedConfig w envs c).
Proof.
  intros Hf. destruct (toOption_cases s c) as [-> | ->]; [reflexivity|].
  destruct s, f; cbn [setterField] in Hf; try contradiction; reflexivity.
Qed.

Lemma resolvedConfig_required (envs : gmap string string) (s : Setter) (c : Config) :
  DatabaseURL (resolvedConfig w envs c) <> "" ->
  AuthServiceURL (resolvedConfig w envs c) <> "" ->
  DatabaseURL (resolvedConfig w envs (toOption s c)) <> ""
  /\ AuthServiceURL (resolvedConfig w envs (toOption s c)) <> "".
Proof.
  intros Hdb Hau.
  destruct (takesEffect s) eqn:He; [|now rewrite setter_empty].
  rewrite (toOption_effect s c He).
  destruct s; unfold takesEffect in He; cbn [setterArg] in He;
    try (split; [exact Hdb | exact Hau]).
  - split; [|exact Hau]. cbn [resolvedConfig set_DatabaseURL DatabaseURL].
    rewrite getEnvWithFallback_empty. intros (_ & _ & ->). discriminate He.
  - split; [exact Hdb|]. cbn [resolvedConfig set_AuthServiceURL AuthServiceURL].
    rewrite getEnvWithFallback_empty. intros (_ & _ & ->). discriminate He.
Qed.

End Stability.

(** X6. Resolution is stable: when [NewConfig] returns a configuration,
    calling it again in the same world with that configuration's fields as
    overrides returns the same configuration and logs the same lines. *)
Theorem NewConfig_idempotent
        (w : World) (opts : list Option) (c : Config) (l : list string) :
  NewConfig w opts = (Ok c, l) ->
  NewConfig w (optionsOf c) = (Ok c, l).
Proof.
  intros HN.
  apply NewConfig_ok_inv in HN as (envs & l1 & Hload & _ & -> & -> & Hdb & Hau).
  pose proof (NewConfig_ok w (optionsOf (resolvedConfig w envs (applyOpts opts zeroConfig)))
                envs l1) as Hok.
  rewrite applyOpts_optionsOf, resolvedConfig_idem in Hok.
  rewrite Hok; [|exact Hload | exact Hdb | exact Hau].
  now rewrite (debugLog_fallback w envs _ (Debug (applyOpts opts zeroConfig))).
Qed.

Lemma NewConfig_idempotent_witness :
  NewConfig worldDotEnv [WithPort "80"]
  = (Ok (mkConfig "postgres://file" "http://b" false "80" "" "" ""),
     [boolWarning "DEBUG"])
  /\ NewConfig worldDotEnv
       (optionsOf (mkConfig "postgres://file" "http://b" false "80" "" "" ""))
     = (Ok (mkConfig "postgres://file" "http://b" false "80" "" "" ""),
        [boolWarning "DEBUG"]).
Proof.
  split; [vm_compute; reflexivity|].
  apply (NewConfig_idempotent worldDotEnv [WithPort "80"]).
  vm_compute. reflexivity.
Defined.

(** X7. One more override never turns success into failure, unless it is
    [WithEnvFile]: when [NewConfig] returns a configuration, it also does
    with any setter of another field appended to the overrides; the log is
    the same and so is every field but the setter's own. *)
Theorem extra_override_keeps_success
        (w : World) (opts : list Option) (s : Setter) (c : Config) (l : list string) :
  NewConfig w opts = (Ok c, l) ->
  setterField s <> FEnvFile ->
  exists c' : Config,
    NewConfig w (opts ++ [toOption s]) = (Ok c', l)
    /\ forall f : Field, f <> setterField s -> getField f c' = getField f c.
Proof.
  intros HN Hs.
  apply NewConfig_ok_inv in HN as (envs & l1 & Hload & _ & -> & -> & Hdb & Hau).
  assert (Hpre : applyOpts (opts ++ [toOption s]) zeroConfig
                 = toOption s (applyOpts opts zeroConfig))
    by (now rewrite applyOpts_app).
  assert (Hfile : EnvFile (toOption s (applyOpts opts zeroConfig))
                  = EnvFile (applyOpts opts zeroConfig)).
  { assert (H : getField FEnvFile (toOption s (applyOpts opts zeroConfig))
                = getField FEnvFile (applyOpts opts zeroConfig))
      by (apply setter_frame; congruence).
    now injection H. }
  destruct (resolvedConfig_required w envs s _ Hdb Hau) as [Hdb' Hau'].
  exists (resolvedConfig w envs (toOption s (applyOpts opts zeroConfig))).
  split.
  - pose proof (NewConfig_ok w (opts ++ [toOption s]) envs l1) as Hok.
    rewrite Hpre, Hfile in Hok. rewrite Hok; [|exact Hload | exact Hdb' | exact Hau'].
    now rewrite (debugLog_fallback w envs _ (Debug (applyOpts opts zeroConfig))).
  - intros f Hf. now apply resolvedConfig_frame.
Qed.

Lemma extra_override_keeps_success_witness :
  NewConfig worldDotEnv []
  = (Ok (mkConfig "postgres://file" "http://b" false "" "" "" ""),
     [boolWarning "DEBUG"])
  /\ exists c' : Config,
      NewConfig worldDotEnv ([] ++ [toOption (SDatabaseURL "postgres://code")])
      = (Ok c', [boolWarning "DEBUG"])
      /\ forall f : Field,
          f <> setterField (SDatabaseURL "postgres://code") ->
          getField f c'
          = getField f (mkConfig "postgres://file" "http://b" false "" "" "" "").
Proof.
  split; [vm_compute; reflexivity|].
  apply (extra_override_keeps_success worldDotEnv [] (SDatabaseURL "postgres://code")).
  - vm_compute. reflexivity.
  - discriminate.
Defined.

Section EffectiveInputs.
Variables w1 w2 : World.
Hypothesis Heff : sameEffectiveInputs w1 w2.

Lemma eff_fileAt (path : string) : sameEntry (fileAt w1 path) (fileAt w2 path).
Proof.
  unfold fileAt. destruct (String.eqb path ""); [reflexivity|].
  destruct Heff as (_ & Hfs & _). apply Hfs.
Qed.

Lemma eff_os_Stat (path : string) : os_Stat w1 path = os_Stat w2 path.
Proof.
  unfold os_Stat. pose proof (eff_fileAt path) as H. unfold sameEntry in H.
  destruct (fileAt w1 path) as [[m1 | c1 | c1]|], (fileAt w2 path) as [[m2 | c2 | c2]|];
    try reflexivity; discriminate H.
Qed.

Lemma eff_findEnvFilePathLoop (fuel : nat) (dir : string) :
  findEnvFilePathLoop w1 fuel dir = findEnvFilePathLoop w2 fuel dir.
Proof.
  revert dir. induction fuel as [|fuel IH]; intros dir; [reflexivity|].
  cbn [findEnvFilePathLoop]. now rewrite eff_os_Stat, IH.
Qed.

Lemma os_Getenv_nonEmptyEntry (w : World) (key : string) :
  os_Getenv w key = default "" (nonEmptyEntry (environ w) key).
Proof.
  unfold os_Getenv, nonEmptyEntry.
  destruct (environ w !! key) as [v|]; [|reflexivity].
  now destruct (String.eqb_spec v "") as [-> | _].
Qed.

Lemma eff_envFilePathFor (hint : string) :
  envFilePathFor w1 hint = envFilePathFor w2 hint.
Proof.
  destruct Heff as (Henv & _ & Hcaller).
  unfold envFilePathFor, findEnvFilePath.
  rewrite !os_Getenv_nonEmptyEntry, (Henv "ENV_FILE"), Hcaller,
    eff_findEnvFilePathLoop; [reflexivity | simpl; auto].
Qed.

Lemma eff_getEnvWithFallback (envs1 envs2 : gmap string string)
      (key fallback : string) :
  sameNonEmpty fieldKeys envs1 envs2 ->
  In key fieldKeys ->
  getEnvWithFallback w1 envs1 key fallback = getEnvWithFallback w2 envs2 key fallback.
Proof.
  intros Hfile Hkey. destruct Heff as (Henv & _).
  rewrite !getEnvWithFallback_spec, (Hfile key Hkey), (Henv key); [reflexivity|].
  simpl in Hkey |- *. tauto.
Qed.

Lemma eff_resolveFields (envs1 envs2 : gmap string string) (c : Config) :
  sameNonEmpty fieldKeys envs1 envs2 ->
  resolveFields w1 envs1 c = resolveFields w2 envs2 c.
Proof.
  intros Hfile. unfold resolveFields, getBoolEnvWithFallback.
  rewrite !(eff_getEnvWithFallback envs1 envs2 _ _ Hfile) by (simpl; tauto).
  reflexivity.
Qed.

Lemma eff_NewConfig (opts : list Option) : NewConfig w1 opts = NewConfig w2 opts.
Proof.
  rewrite !NewConfig_resolveFields, !loadEnv_unfold, eff_envFilePathFor.
  pose proof (eff_fileAt (envFilePathFor w2 (EnvFile (applyOpts opts zeroConfig))))
    as Hat.
  pose proof (readEnvFile_cases w1
                (envFilePathFor w2 (EnvFile (applyOpts opts zeroConfig)))) as H1.
  pose proof (readEnvFile_cases w2
                (envFilePathFor w2 (EnvFile (applyOpts opts zeroConfig)))) as H2.
  unfold sameEntry in Hat.
  destruct (fileAt w1 _) as [[m1 | c1 | c1]|], (fileAt w2 _) as [[m2 | c2 | c2]|];
    try discriminate Hat; rewrite H1, H2;
    unfold mbind, M_bind, bind, orWrap.
  - now rewrite (eff_resolveFields m1 m2 _ Hat).
  - now injection Hat as ->.
  - now injection Hat as ->.
  - now rewrite (eff_resolveFields ∅ ∅) by (intros ? _; reflexivity).
Qed.

End EffectiveInputs.

(** X8. An entry set to the empty string counts as unset, in the file and
    in the process environment alike, and keys of the file other than the
    six of the fields are ignored: two worlds whose environments have the
    same non-empty values of the seven variables read, whose readable files
    have the same non-empty entries under the six keys, and which otherwise
    hold the same files, give [NewConfig] the same result and the same log. *)
Theorem empty_entries_and_unknown_keys_ignored
        (w1 w2 : World) (opts : list Option) :
  sameEffectiveInputs w1 w2 ->
  NewConfig w1 opts = NewConfig w2 opts.
Proof. intros Heff. now apply eff_NewConfig. Qed.

Lemma empty_entries_and_unknown_keys_ignored_witness :
  sameEffectiveInputs worldDotEnv worldDotEnvNoise
  /\ environ worldDotEnvNoise !! "GOOGLE_CLIENT_ID" = Some ""
  /\ environ worldDotEnv !! "GOOGLE_CLIENT_ID" = None
  /\ NewConfig worldDotEnv [WithPort "80"] = NewConfig worldDotEnvNoise [WithPort "80"].
Proof.
  assert (H : sameEffectiveInputs worldDotEnv worldDotEnvNoise).
  { split; [|split; [|reflexivity]].
    - intros key Hkey. simpl in Hkey.
      repeat (destruct Hkey as [<- | Hkey]; [vm_compute; reflexivity|]).
      contradiction.
    - intros path. unfold sameEntry, worldDotEnv, worldDotEnvNoise. cbn [fs].
      destruct (String.eqb path "/go/.env"); [|reflexivity].
      intros key Hkey. simpl in Hkey.
      repeat (destruct Hkey as [<- | Hkey]; [vm_compute; reflexivity|]).
      contradiction. }
  split; [exact H|]. split; [vm_compute; reflexivity|].
  split; [vm_compute; reflexivity|].
  exact (empty_entries_and_unknown_keys_ignored worldDotEnv worldDotEnvNoise
           [WithPort "80"] H).
Defined.

Section PathChoice.
Variable w : World.

Lemma envFilePathFor_explicit (hint path : string) :
  explicitPath w hint = Some path -> envFilePathFor w hint = path.
Proof.
  unfold explicitPath, envFilePathFor. rewrite os_Getenv_nonEmptyEntry.
  destruct (String.eqb hint ""); [|now intros [= ->]].
  intros Henv. rewrite Henv. cbn [default from_option id].
  apply nonEmptyEntry_Some in Henv as [_ Hne].
  apply String.eqb_neq in Hne. now rewrite Hne.
Qed.

Lemma envFilePathFor_search (hint : string) :
  explicitPath w hint = None ->
  envFilePathFor w hint = findEnvFilePath w (filepath.Dir (callerFile w)).
Proof.
  unfold explicitPath, envFilePathFor. rewrite os_Getenv_nonEmptyEntry.
  destruct (String.eqb hint ""); [|discriminate]. now intros ->.
Qed.

Lemma searches_exists (dir : string) (probes : nat) (r : string) :
  searches w dir probes r -> r = "" \/ os_Stat w r = true.
Proof. induction 1; auto. Qed.

Lemma searches_det (dir : string) (probes1 probes2 : nat) (r1 r2 : string) :
  searches w dir probes1 r1 -> searches w dir probes2 r2 ->
  probes1 = probes2 /\ r1 = r2.
Proof.
  intros H1. revert probes2 r2.
  induction H1 as [dir Hstat | dir Hstat Hfix | dir probes r Hstat Hup _ IH];
    intros probes2 r2 H2; inversion H2 as [| | ? ? ? ? ? Hrest]; subst;
    try congruence; try (now split).
  destruct (IH _ _ Hrest) as [-> ->]. now split.
Qed.

(** The search returns the [.env] beside the first ancestor that has one. *)
Lemma searches_first (k : nat) :
  forall startDir : string,
    (forall i, i < k ->
       os_Stat w (filepath.Join [climb i startDir; ".env"]) = false
       /\ filepath.Dir (climb i startDir) <> climb i startDir) ->
    os_Stat w (filepath.Join [climb k startDir; ".env"]) = true ->
    searches w startDir (S k) (filepath.Join [climb k startDir; ".env"]).
Proof.
  induction k as [|k IH]; intros startDir Hbelow Hstat.
  - now apply searches_found.
  - destruct (Hbelow 0) as [Hstat0 Hup0]; [lia|].
    apply searches_up; [exact Hstat0 | exact Hup0|].
    rewrite <- climb_Dir. apply IH.
    + intros i Hi. rewrite !climb_Dir. apply Hbelow. lia.
    + now rewrite climb_Dir.
Qed.

Lemma findEnvFilePath_first (k : nat) (startDir : string) :
  (forall i, i < k ->
     os_Stat w (filepath.Join [climb i startDir; ".env"]) = false
     /\ filepath.Dir (climb i startDir) <> climb i startDir) ->
  os_Stat w (filepath.Join [climb k startDir; ".env"]) = true ->
  findEnvFilePath w startDir = filepath.Join [climb k startDir; ".env"].
Proof.
  intros Hbelow Hstat.
  destruct (findEnvFilePath_searches w startDir) as (probes & r & Hrun & _ & ->).
  now destruct (searches_det _ _ _ _ _ Hrun (searches_first k startDir Hbelow Hstat)).
Qed.

Lemma NewConfig_unreadable (opts : list Option) (cause : string) :
  fileAt w (envFilePathFor w (EnvFile (applyOpts opts zeroConfig)))
  = Some (Unreadable cause) ->
  NewConfig w opts = (Err (ConfigLoadError (ErrRead cause)), []).
Proof.
  intros Hfile. pose proof (NewConfig_cases w opts) as Hc.
  pose proof (loadEnv_fileMapping w (EnvFile (applyOpts opts zeroConfig))) as Hload.
  rewrite Hfile in Hload. now rewrite Hload in Hc.
Qed.

End PathChoice.

(** X9. A path named by the caller is never replaced by the search: when
    [WithEnvFile], or without it a non-empty [ENV_FILE], names a path, that
    path is the one read.  If the lookup there reports that no such file
    exists, [loadEnv] returns the empty mapping with a warning that names
    this path, and [NewConfig] resolves the fields from the process
    environment and the overrides alone, even if a [.env] lies beside the
    package or above it.  If the lookup or the read fails in any other way,
    as it does for a path under a regular file, [NewConfig] fails with the
    load error. *)
Theorem missing_explicit_path_not_searched
        (w : World) (opts : list Option) (path : string) :
  explicitPath w (EnvFile (applyOpts opts zeroConfig)) = Some path ->
  envFilePathFor w (EnvFile (applyOpts opts zeroConfig)) = path
  /\ (fileAt w path = None ->
      loadEnv w (EnvFile (applyOpts opts zeroConfig)) = (Ok ∅, [notFoundWarning path])
      /\ NewConfig w opts
         = (fst (resolveFields w ∅ (applyOpts opts zeroConfig)),
            notFoundWarning path
            :: snd (resolveFields w ∅ (applyOpts opts zeroConfig))))
  /\ (forall cause : string,
        fileAt w path = Some (Unreadable cause)
        \/ fileAt w path = Some (NoAccess cause) ->
        NewConfig w opts = (Err (ConfigLoadError (ErrRead cause)), [])).
Proof.
  intros Hpath. apply envFilePathFor_explicit in Hpath.
  pose proof (loadEnv_fileMapping w (EnvFile (applyOpts opts zeroConfig))) as Hload.
  pose proof (NewConfig_cases w opts) as Hc.
  unfold fileMapping in Hload. rewrite Hpath in Hload.
  split; [exact Hpath|]. split.
  - intros Hfile. rewrite Hfile in Hload. split; [exact Hload|].
    rewrite Hload in Hc. destruct Hc as (r & l2 & Hr & ->). now rewrite Hr.
  - intros cause [Hfile | Hfile]; rewrite Hfile in Hload; now rewrite Hload in Hc.
Qed.

Lemma missing_explicit_path_not_searched_witness :
  findEnvFilePath worldDotEnv (filepath.Dir (callerFile worldDotEnv)) = "/go/.env"
  /\ explicitPath worldDotEnv (EnvFile (applyOpts [WithEnvFile "/missing"] zeroConfig))
     = Some "/missing"
  /\ fileAt worldDotEnv "/missing" = None
  /\ NewConfig worldDotEnv [WithEnvFile "/missing"]
     = (Ok (mkConfig "postgres://env" "http://b" false "" "/missing" "" ""),
        [notFoundWarning "/missing"])
  /\ explicitPath worldNotDir
       (EnvFile (applyOpts [WithEnvFile "/go/src/configutil/configutil.go/.env"]
                   zeroConfig))
     = Some "/go/src/configutil/configutil.go/.env"
  /\ NewConfig worldNotDir [WithEnvFile "/go/src/configutil/configutil.go/.env"]
     = (Err (ConfigLoadError
               (ErrRead "open /go/src/configutil/configutil.go/.env: not a directory")),
        []).
Proof.
  split; [vm_compute; reflexivity|]. split; [reflexivity|]. split; [reflexivity|].
  destruct (missing_explicit_path_not_searched worldDotEnv [WithEnvFile "/missing"]
              "/missing") as (_ & Hmissing & _); [reflexivity|].
  destruct (Hmissing eq_refl) as [_ HN].
  split; [rewrite HN; vm_compute; reflexivity|].
  split; [reflexivity|].
  destruct (missing_explicit_path_not_searched worldNotDir
              [WithEnvFile "/go/src/configutil/configutil.go/.env"]
              "/go/src/configutil/configutil.go/.env") as (_ & _ & Hfail);
    [reflexivity|].
  apply Hfail. right. reflexivity.
Defined.

(** X10. When neither [WithEnvFile] nor [ENV_FILE] names a path, [loadEnv]
    never reports a missing file by name: the search hands it a path that
    exists or the empty path, so it logs nothing, or it logs the warning
    with the empty path and returns the empty mapping, and this only when no
    [.env] was found on the way up. *)
Theorem search_warning_names_no_path
        (w : World) (hint : string) (r : result (gmap string string))
        (l : list string) :
  explicitPath w hint = None ->
  loadEnv w hint = (r, l) ->
  l = []
  \/ (l = [notFoundWarning ""] /\ r = Ok ∅
      /\ findEnvFilePath w (filepath.Dir (callerFile w)) = "").
Proof.
  intros Hpath Hload. apply envFilePathFor_search in Hpath.
  pose proof (loadEnv_fileMapping w hint) as Hcases.
  unfold fileMapping in Hcases. rewrite Hpath in Hcases.
  destruct (findEnvFilePath_searches w (filepath.Dir (callerFile w)))
    as (probes & path & Hrun & _ & Hr).
  rewrite Hr in Hcases.
  destruct (fileAt w path) as [[envs | cause | cause]|] eqn:Hat;
    rewrite Hload in Hcases; try (left; congruence).
  right. destruct (searches_exists w _ _ _ Hrun) as [-> | Hstat].
  - injection Hcases as -> ->. now rewrite Hr.
  - unfold os_Stat in Hstat. rewrite Hat in Hstat. discriminate Hstat.
Qed.

Lemma search_warning_names_no_path_witness :
  explicitPath worldEmpty "" = None
  /\ loadEnv worldEmpty "" = (Ok ∅, [notFoundWarning ""])
  /\ ([notFoundWarning ""] = []
      \/ ([notFoundWarning ""] = [notFoundWarning ""]
          /\ @Ok (gmap string string) ∅ = Ok ∅
          /\ findEnvFilePath worldEmpty (filepath.Dir (callerFile worldEmpty)) = "")).
Proof.
  split; [reflexivity|]. split; [reflexivity|].
  apply (search_warning_names_no_path worldEmpty "" (Ok ∅) [notFoundWarning ""]);
    reflexivity.
Defined.

(** X11. The search stops at the first [.env] on the way up, whatever it
    is: when no ancestor below the [k]-th has a [.env] and the [k]-th has
    one, [findEnvFilePath] returns that one.  If it cannot be read, say
    because it is a directory, and no path was named by [WithEnvFile] or
    [ENV_FILE], [NewConfig] fails with the load error; a readable [.env]
    further up is not tried. *)
Theorem nearest_dotenv_decides (w : World) (startDir : string) (k : nat) :
  (forall i, i < k ->
     os_Stat w (filepath.Join [climb i startDir; ".env"]) = false
     /\ filepath.Dir (climb i startDir) <> climb i startDir) ->
  os_Stat w (filepath.Join [climb k startDir; ".env"]) = true ->
  findEnvFilePath w startDir = filepath.Join [climb k startDir; ".env"]
  /\ (forall (opts : list Option) (cause : string),
        startDir = filepath.Dir (callerFile w) ->
        explicitPath w (EnvFile (applyOpts opts zeroConfig)) = None ->
        fileAt w (filepath.Join [climb k startDir; ".env"]) = Some (Unreadable cause) ->
        NewConfig w opts = (Err (ConfigLoadError (ErrRead cause)), [])).
Proof.
  intros Hbelow Hstat.
  pose proof (findEnvFilePath_first w k startDir Hbelow Hstat) as Hfound.
  split; [exact Hfound|].
  intros opts cause -> Hpath Hfile. apply NewConfig_unreadable.
  now rewrite (envFilePathFor_search w _ Hpath), Hfound.
Qed.

Lemma nearest_dotenv_decides_witness :
  fileAt worldDotEnvDir "/go/.env" = Some (DotEnv (<["PORT" := "80"]> ∅))
  /\ findEnvFilePath worldDotEnvDir "/go/src/configutil" = "/go/src/configutil/.env"
  /\ NewConfig worldDotEnvDir []
     = (Err (ConfigLoadError (ErrRead "read /go/src/configutil/.env: is a directory")),
        []).
Proof.
  split; [reflexivity|].
  destruct (nearest_dotenv_decides worldDotEnvDir "/go/src/configutil" 0)
    as [Hfound Hfail]; [intros i Hi; lia | reflexivity|].
  split; [exact Hfound|].
  apply (Hfail []); reflexivity.
Defined.

(** X12. [NewConfig] logs at most two lines, and which ones depends on the
    file and on [DEBUG] alone: nothing when reading the path fails with an
    error other than "no such file"; else
    the not-found warning when no file is read, followed by the warning on
    [DEBUG] when the string that decides it does not parse.  A failed
    validation adds no line and does not hold back the warnings. *)
Theorem NewConfig_log (w : World) (opts : list Option) :
  snd (NewConfig w opts)
  = match fileAt w (envFilePathFor w (EnvFile (applyOpts opts zeroConfig))) with
    | Some (Unreadable _) | Some (NoAccess _) => []
    | Some (DotEnv envs) => debugLog w envs (Debug (applyOpts opts zeroConfig))
    | None =>
        notFoundWarning (envFilePathFor w (EnvFile (applyOpts opts zeroConfig)))
        :: debugLog w ∅ (Debug (applyOpts opts zeroConfig))
    end.
Proof.
  pose proof (NewConfig_cases w opts) as Hc.
  pose proof (loadEnv_fileMapping w (EnvFile (applyOpts opts zeroConfig))) as Hload.
  unfold fileMapping in Hload.
  destruct (fileAt w _) as [[envs | cause | cause]|]; rewrite Hload in Hc.
  - destruct Hc as (r & l2 & Hr & ->). cbn [snd app].
    now rewrite <- resolveFields_log, Hr.
  - now rewrite Hc.
  - now rewrite Hc.
  - destruct Hc as (r & l2 & Hr & ->). cbn [snd app].
    now rewrite <- resolveFields_log, Hr.
Qed.
